(** * gdrive-webdav: path resolution, lookup cache and file handles

    A shallow embedding of [gdrive/cache.go] and [gdrive/gdrive.go], the
    file system that presents Google Drive as a WebDAV tree.

    - The Drive client is an interface ([DriveService]); every call made
      through it is recorded in a ghost trace ([calls]), so that "no remote
      query" and "exactly one create" are statements about the trace.
    - The go-cache instance is a finite map from keys to a value and its
      expiry instant, read against the clock [now] of the state.  The clock
      stands still during a call, except while a read blocks, and moves
      between calls ([tick]).
    - A Go pointer that may be nil is an [option]; dereferencing [None]
      panics.  A method returns, panics, or recurses without end ([Res]).
    - [getFile0] recurses on the parent path through [getFileID] and
      [getFile]; the depth of that recursion is bounded by a natural number,
      and running out of it is the third outcome, never a result. *)

From Stdlib Require Import ZArith Lia List Ascii String.
From Stdlib Require Strings.Byte.
From stdpp Require Import base option list strings gmap fin_maps.

Local Open Scope Z_scope.

(** ** Go library functions used by the package *)

Module GoLib.

Definition slash : ascii := "/"%char.

(** [strings.TrimRight(p, "/")]: drop every trailing slash. *)
Fixpoint trimRightSlash (p : string) : string :=
  match p with
  | EmptyString => EmptyString
  | String c r =>
      match trimRightSlash r with
      | EmptyString => if Ascii.eqb c slash then EmptyString else String c EmptyString
      | r' => String c r'
      end
  end.

(** The components of a path between its slashes. *)
Fixpoint components (p : string) : list string :=
  match p with
  | EmptyString => [EmptyString]
  | String c r =>
      if Ascii.eqb c slash then EmptyString :: components r
      else match components r with
           | [] => [String c EmptyString]
           | x :: xs => String c x :: xs
           end
  end.

(** One component of [path.Clean]; the stack holds the kept components,
    innermost first. *)
Definition clean_step (rooted : bool) (stack : list string) (c : string) : list string :=
  if decide (c = "") then stack
  else if decide (c = ".") then stack
  else if decide (c = "..") then
    match stack with
    | top :: rest => if decide (top = "..") then c :: stack else rest
    | [] => if rooted then [] else [c]
    end
  else c :: stack.

Fixpoint join_slash (l : list string) : string :=
  match l with
  | [] => ""
  | [x] => x
  | x :: r => x +:+ "/" +:+ join_slash r
  end.

Definition is_rooted (p : string) : bool :=
  match p with
  | String c _ => Ascii.eqb c slash
  | EmptyString => false
  end.

(** [path.Clean]. *)
Definition Clean (p : string) : string :=
  if decide (p = "") then "."
  else
    let rooted := is_rooted p in
    let body := join_slash (rev (fold_left (clean_step rooted) (components p) [])) in
    if rooted then "/" +:+ body
    else if decide (body = "") then "." else body.

(** The part of [p] up to and including its last slash ([path.Split]). *)
Fixpoint dir_part (p : string) : string :=
  match p with
  | EmptyString => EmptyString
  | String c r =>
      match dir_part r with
      | EmptyString => if Ascii.eqb c slash then String c EmptyString else EmptyString
      | d => String c d
      end
  end.

Definition file_part (p : string) : string :=
  let n := String.length (dir_part p) in
  String.substring n (String.length p - n) p.

(** [path.Dir]. *)
Definition Dir (p : string) : string := Clean (dir_part p).

(** [path.Base]. *)
Definition Base (p : string) : string :=
  if decide (p = "") then "."
  else
    let q := file_part (trimRightSlash p) in
    if decide (q = "") then "/" else q.

(** [strings.HasSuffix(p, "/")]. *)
Fixpoint hasSuffixSlash (p : string) : bool :=
  match p with
  | EmptyString => false
  | String c EmptyString => Ascii.eqb c slash
  | String _ r => hasSuffixSlash r
  end.

(** A path made of slashes only, the empty path among them. *)
Fixpoint onlySlashes (p : string) : bool :=
  match p with
  | EmptyString => true
  | String c r => Ascii.eqb c slash && onlySlashes r
  end.

(** The length of the components of a path, a separator counted after each. *)
Definition weight (l : list string) : nat :=
  fold_right (fun c n => S (String.length c + n)) O l.

(** [int64] arithmetic wraps around. *)
Definition int64 (z : Z) : Z := (z + 2 ^ 63) mod 2 ^ 64 - 2 ^ 63.

(** [time.Duration] values, in nanoseconds. *)
Definition Second : Z := 1000000000.
Definition Minute : Z := 60 * Second.

(** [os] open flags. *)
Definition O_RDONLY : Z := 0.
Definition O_RDWR : Z := 2.
Definition O_CREATE : Z := 64.
Definition O_TRUNC : Z := 512.

(** The zero [time.Time], as nanoseconds from the Unix epoch. *)
Definition zeroTime : Z := -62135596800 * Second.

End GoLib.


(** ** Data model *)

Abbreviation bytes := (list Byte.byte).

(** Go [error] values that the package produces or compares against. *)
Inductive error : Type :=
| ErrNotExist                 (* os.ErrNotExist *)
| ErrExist                    (* os.ErrExist *)
| EOF                         (* io.EOF *)
| Canceled                    (* context.Canceled *)
| ErrTimeout                  (* a read that stalled past its deadline *)
| ErrAPI (msg : string)       (* an error of the Drive client *)
| ErrOpenMode (flag : Z).     (* unsupported open mode: flag *)

#[global] Instance error_eq_dec : EqDecision error.
Proof. solve_decision. Defined.

(** The fields of [drive.File] that the package reads or writes. *)
Record File : Type := mkFile {
  Id : string;
  Name : string;
  MimeType : string;
  Trashed : bool;
  Parents : list string;
  Size : Z;
  CreatedTime : string;
  ModifiedTime : string
}.

Definition mimeTypeFolder : string := "application/vnd.google-apps.folder".

(** What a response body does on its next read: bytes or an error after
    [wait] nanoseconds, or nothing at all, ever.  The end of the list is the
    end of the body. *)
Inductive event : Type :=
| Data (wait : Z) (bs : bytes)
| Fail (wait : Z) (e : error)
| Hang.

Abbreviation Stream := (list event).

(** The part of [*drive.Service] the package calls.  A [*drive.File] that
    comes back with a nil error is not nil, and neither are the elements of
    a listing. *)
Class DriveService (R : Type) : Type := {
  (* Files.Get(id).Do() *)
  files_get : string -> R -> (error + File) * R;
  (* Files.List().Q(q).Fields(fields).Do() *)
  files_list : string -> string -> R -> (error + list File) * R;
  (* Files.Create(f).Do() and Files.Create(f).Media(buf).Do() *)
  files_create : File -> option bytes -> R -> (error + File) * R;
  (* Files.Delete(id).Do() *)
  files_delete : string -> R -> option error * R;
  (* Files.Get(id).Context(ctx).Download(), ctx cancelled after [timeout] *)
  files_download : string -> Z -> R -> (error + Stream) * R
}.

(** [time.Parse(time.RFC3339, s)], with instants as nanoseconds. *)
Class TimeLib : Type := {
  time_Parse_RFC3339 : string -> error + Z
}.

(** The calls that reach the remote store, in the order they are made. *)
Inductive Call : Type :=
| CGet (id : string)
| CList (q fields : string)
| CCreate (f : File) (media : option bytes)
| CDelete (id : string)
| CDownload (id : string).

Definition is_mutation (c : Call) : bool :=
  match c with
  | CCreate _ _ | CDelete _ => true
  | _ => false
  end.

Definition is_query (c : Call) : bool := negb (is_mutation c).

Record fileAndPath : Type := mkFileAndPath {
  file : option File;          (* *drive.File *)
  path : string;
  files : list File            (* []*drive.File *)
}.

Record fileLookupResult : Type := mkLookup {
  fp : option fileAndPath;     (* *fileAndPath *)
  err : option error
}.

(** [fileSystem]: the Drive client, the cache, and with them the clock the
    cache reads and the trace of remote calls. *)
Record fileSystem (R : Type) : Type := mkFS {
  client : R;
  calls : list Call;
  cache : gmap string (fileLookupResult * Z);
  now : Z
}.
Arguments mkFS {R}.
Arguments client {R}.
Arguments calls {R}.
Arguments cache {R}.
Arguments now {R}.

Record fileInfo : Type := mkFileInfo {
  fi_name : string;
  fi_isDir : bool;
  fi_modTime : Z;
  fi_size : Z
}.

Record openWritableFile : Type := mkWritable {
  w_buffer : bytes;
  w_size : Z;
  w_name : string;
  w_flag : Z;
  w_perm : Z
}.

(** The reader that [getTimeoutReaderWrapperContext] wraps around a body:
    it reads from the handle's [body] and gives up after [tr_timeout]. *)
Record timeoutReader : Type := mkTimeoutReader {
  tr_timeout : Z
}.

Record openReadonlyFile : Type := mkReadonly {
  r_file : option File;
  r_content : option bytes;
  r_size : Z;
  r_pos : Z;
  r_contentReader : option timeoutReader;
  r_name : string;
  r_body : option Stream
}.

Inductive webdavFile : Type :=
| WritableFile (f : openWritableFile)
| ReadonlyFile (f : openReadonlyFile).

(** ** The monad of the embedding

    A method of [fileSystem] or of a handle runs on the file-system state
    and returns, panics (the state it leaves is kept: net/http recovers a
    panicking handler), or recurses without end. *)

Inductive Res (S A : Type) : Type :=
| Ok (a : A) (s : S)
| Panic (msg : string) (s : S)
| OutOfFuel.
Arguments Ok {S A}.
Arguments Panic {S A}.
Arguments OutOfFuel {S A}.

Definition M (R A : Type) : Type := fileSystem R -> Res (fileSystem R) A.

Definition ret {R A} (a : A) : M R A := fun st => Ok a st.

Definition bind {R A B} (m : M R A) (k : A -> M R B) : M R B :=
  fun st =>
    match m st with
    | Ok a st' => k a st'
    | Panic msg st' => Panic msg st'
    | OutOfFuel => OutOfFuel
    end.

Definition panic {R A} (msg : string) : M R A := fun st => Panic msg st.

Definition diverge {R A} : M R A := fun _ => OutOfFuel.

Notation "'let*' x ':=' m 'in' k" := (bind m (fun x => k))
  (at level 10, x name, m at level 100, k at level 200).

Definition nil_deref : string := "invalid memory address or nil pointer dereference".

(** Dereferencing a pointer that may be nil. *)
Definition deref {R A} (p : option A) : M R A :=
  match p with
  | Some a => ret a
  | None => panic nil_deref
  end.

Section FileSystem.

Context {R : Type} `{DriveService R} `{TimeLib}.

(** *** The cache (go-cache) and the remote calls *)

(** [cache.Get]: an item is found until its expiry instant has passed. *)
Definition cache_Get (key : string) : M R (option fileLookupResult) :=
  fun st =>
    match cache st !! key with
    | Some (v, e) => if bool_decide (now st <= e) then Ok (Some v) st else Ok None st
    | None => Ok None st
    end.

(** [cache.Set(key, v, d)] with a positive duration [d], at an instant after
    the Unix epoch: the item expires at [now + d]. *)
Definition cache_Set (key : string) (v : fileLookupResult) (d : Z) : M R unit :=
  fun st => Ok tt (mkFS (client st) (calls st) (<[key := (v, now st + d)]> (cache st)) (now st)).

(** [cache.Delete]. *)
Definition cache_Delete (key : string) : M R unit :=
  fun st => Ok tt (mkFS (client st) (calls st) (delete key (cache st)) (now st)).

Definition remote {A} (c : Call) (op : R -> A * R) : M R A :=
  fun st =>
    let (a, r') := op (client st) in
    Ok a (mkFS r' (calls st ++ [c]) (cache st) (now st)).

Definition listFields : string :=
  "files(id,name,mimeType,trashed,parents,size,parents,createdTime,modifiedTime)".

Definition Files_Get (id : string) : M R (error + File) :=
  remote (CGet id) (files_get id).
Definition Files_List (q : string) : M R (error + list File) :=
  remote (CList q listFields) (files_list q listFields).
Definition Files_Create (f : File) (media : option bytes) : M R (error + File) :=
  remote (CCreate f media) (files_create f media).
Definition Files_Delete (id : string) : M R (option error) :=
  remote (CDelete id) (files_delete id).
Definition Files_Download (id : string) (timeout : Z) : M R (error + Stream) :=
  remote (CDownload id) (files_download id timeout).

(** *** cache.go *)

Definition cacheKeyAbout : string := "global:about".
Definition cacheKeyFile : string := "file:".
Definition cacheKeyDir : string := "file:".

Definition invalidatePath (p : string) : M R unit :=
  cache_Delete (cacheKeyFile +:+ p).

(** [getFile], over the resolver it fronts. *)
Definition getFile_over
    (getFile0 : string -> bool -> M R (option fileAndPath * option error))
    (p : string) (onlyFolder : bool) : M R (option fileAndPath * option error) :=
  let key := cacheKeyFile +:+ p in
  let* found := cache_Get key in
  match found with
  | Some result => ret (fp result, err result)
  | None =>
      let* r := getFile0 p onlyFolder in
      let lookup := mkLookup (fst r) (snd r) in
      let* _ := (match snd r with
                 | None => cache_Set key lookup GoLib.Minute
                 | Some _ => ret tt
                 end) in
      ret (fp lookup, err lookup)
  end.

(** *** gdrive.go: resolution *)

Definition normalizePath (p : string) : string := GoLib.trimRightSlash p.

Definition ignoreFile (f : File) : bool := Trashed f.

Definition getFileID_over
    (getFile : string -> bool -> M R (option fileAndPath * option error))
    (p : string) (onlyFolder : bool) : M R (string * option error) :=
  let* r := getFile p onlyFolder in
  match snd r with
  | Some e => ret ("", Some e)
  | None =>
      let* f := deref (fst r) in
      let* x := deref (file f) in
      ret (Id x, None)
  end.

Definition dquote : string := String (ascii_of_nat 34) EmptyString.

(** The query of [getFile0]: the children of [parentID] called [base]. *)
Definition childQuery (parentID base : string) (onlyFolder : bool) : string :=
  let query := "'" +:+ parentID +:+ "' in parents and name=" +:+ dquote +:+ base +:+ dquote in
  if onlyFolder then query +:+ " and mimeType='" +:+ mimeTypeFolder +:+ "'" else query.

(** [for _, file := range r.Files]: the first file not ignored. *)
Fixpoint firstFile (p : string) (l : list File) : option fileAndPath * option error :=
  match l with
  | [] => (None, Some ErrNotExist)
  | f :: l' =>
      if ignoreFile f then firstFile p l'
      else (Some (mkFileAndPath (Some f) p []), None)
  end.

Definition getFile0_over
    (getFileID : string -> bool -> M R (string * option error))
    (p : string) (onlyFolder : bool) : M R (option fileAndPath * option error) :=
  let p := normalizePath p in
  if decide (p = "") then
    let* r := Files_Get "root" in
    match r with
    | inl e => ret (None, Some e)
    | inr f => ret (Some (mkFileAndPath (Some f) "/" []), None)
    end
  else
    let parent := GoLib.Dir p in
    let base := GoLib.Base p in
    let* r := getFileID parent true in
    match snd r with
    | Some e => ret (None, Some e)
    | None =>
        let parentID := fst r in
        let* l := Files_List (childQuery parentID base onlyFolder) in
        match l with
        | inl e => ret (None, Some e)
        | inr fs => ret (firstFile p fs)
        end
    end.

(** [getFile0] calls [getFileID], which calls [getFile], which calls
    [getFile0] on the parent: [n] bounds the depth of that recursion. *)
Fixpoint getFile0 (n : nat) (p : string) (onlyFolder : bool)
    : M R (option fileAndPath * option error) :=
  match n with
  | O => diverge
  | S n' => getFile0_over (getFileID_over (getFile_over (getFile0 n'))) p onlyFolder
  end.

Definition getFile (n : nat) : string -> bool -> M R (option fileAndPath * option error) :=
  getFile_over (getFile0 n).

Definition getFileID (n : nat) : string -> bool -> M R (string * option error) :=
  getFileID_over (getFile n).

(** *** gdrive.go: file information *)

Definition getModTime (f : File) : Z * option error :=
  let modifiedTime := ModifiedTime f in
  let modifiedTime := if decide (modifiedTime = "") then CreatedTime f else modifiedTime in
  if decide (modifiedTime = "") then (GoLib.zeroTime, None)
  else
    match time_Parse_RFC3339 modifiedTime with
    | inl e => (GoLib.zeroTime, Some e)
    | inr modTime => (modTime, None)
    end.

Definition fileInfoOf (f : File) (modTime : Z) : fileInfo :=
  mkFileInfo (Name f) (bool_decide (MimeType f = mimeTypeFolder)) modTime (Size f).

Definition newFileInfo (f : option File) : M R fileInfo :=
  let* x := deref f in
  match getModTime x with
  | (_, Some e) => panic "getModTime"
  | (modTime, None) => ret (fileInfoOf x modTime)
  end.

Definition Stat (n : nat) (name : string) : M R (option fileInfo * option error) :=
  let* r := getFile n name false in
  match snd r with
  | Some e => ret (None, Some e)
  | None =>
      match fst r with
      | None => ret (None, Some ErrNotExist)
      | Some f =>
          let* fi := newFileInfo (file f) in
          ret (Some fi, None)
      end
  end.

(** *** gdrive.go: Mkdir and RemoveAll *)

Definition Mkdir (n : nat) (name : string) (perm : Z) : M R (option error) :=
  let name := normalizePath name in
  let* r := getFileID n name false in
  match snd r with
  | Some e =>
      if decide (e = ErrNotExist) then
        let parent := GoLib.Dir name in
        let dir := GoLib.Base name in
        let* r := getFileID n parent true in
        match snd r with
        | Some e => ret (Some e)
        | None =>
            let parentID := fst r in
            if decide (parentID = "") then ret (Some ErrNotExist)
            else
              let f := mkFile "" dir mimeTypeFolder false [parentID] 0 "" "" in
              let* c := Files_Create f None in
              match c with
              | inl e => ret (Some e)
              | inr _ =>
                  let* _ := invalidatePath name in
                  let* _ := invalidatePath parent in
                  ret None
              end
        end
      else ret (Some e)
  | None => ret (Some ErrExist)
  end.

Definition RemoveAll (n : nat) (name : string) : M R (option error) :=
  let name := normalizePath name in
  let* r := getFileID n name false in
  match snd r with
  | Some e => ret (Some e)
  | None =>
      let id := fst r in
      let* d := Files_Delete id in
      match d with
      | Some e => ret (Some e)
      | None =>
          let* _ := invalidatePath name in
          let* _ := invalidatePath (GoLib.Dir name) in
          ret None
      end
  end.

(** *** gdrive.go: openWritableFile *)

Definition Write (f : openWritableFile) (p : bytes) : M R (openWritableFile * (Z * option error)) :=
  let n := Z.of_nat (length p) in
  ret (mkWritable (w_buffer f ++ p) (GoLib.int64 (w_size f + GoLib.int64 n))
         (w_name f) (w_flag f) (w_perm f),
       (n, None)).

Definition WritableStat (f : openWritableFile) : M R (option fileInfo * option error) :=
  ret (Some (mkFileInfo "" false GoLib.zeroTime (w_size f)), None).

Definition WritableClose (n : nat) (f : openWritableFile) : M R (option error) :=
  let* r := getFileID n (w_name f) false in
  let fileID := fst r in
  let create : M R (option error) :=
    if decide (fileID = "") then
      let parent := GoLib.Dir (w_name f) in
      let base := GoLib.Base (w_name f) in
      let* r := getFileID n parent true in
      match snd r with
      | Some e => ret (Some e)
      | None =>
          let parentID := fst r in
          if decide (parentID = "") then ret (Some ErrNotExist)
          else
            let file := mkFile "" base "" false [parentID] 0 "" "" in
            let* c := Files_Create file (Some (w_buffer f)) in
            match c with
            | inl e => ret (Some e)
            | inr _ =>
                let* _ := invalidatePath (w_name f) in
                let* _ := invalidatePath parent in
                ret None
            end
      end
    else ret (Some ErrExist) in
  match snd r with
  | Some e => if decide (e = ErrNotExist) then create else ret (Some e)
  | None => create
  end.

(** *** gdrive.go: openReadonlyFile *)

(** The body of the loop of [Readdir]. *)
Fixpoint readdirRange (name : string) (l : list File) (infos : list fileInfo)
    : M R (list fileInfo) :=
  match l with
  | [] => ret infos
  | x :: l' =>
      if ignoreFile x then readdirRange name l' infos
      else
        let* fi := newFileInfo (Some x) in
        let lookup := mkLookup (Some (mkFileAndPath (Some x) (name +:+ "/" +:+ Name x) [])) None in
        let* _ := cache_Set (cacheKeyFile +:+ name +:+ "/" +:+ Name x) lookup GoLib.Minute in
        readdirRange name l' (infos ++ [fi])
  end.

Definition listQuery (id : string) : string := "'" +:+ id +:+ "' in parents".

Definition Readdir (f : openReadonlyFile) (count : Z)
    : M R (option (list fileInfo) * option error) :=
  let range (aLookup : fileLookupResult) : M R (option (list fileInfo) * option error) :=
    let* a := deref (fp aLookup) in
    let* infos := readdirRange (r_name f) (files a) [] in
    ret (Some infos, None) in
  let* x := deref (r_file f) in
  let* found := cache_Get (cacheKeyDir +:+ Id x) in
  match found with
  | Some lookup => range lookup
  | None =>
      let* r := Files_List (listQuery (Id x)) in
      match r with
      | inl e => ret (None, Some e)
      | inr fs =>
          let lookup := mkLookup (Some (mkFileAndPath (r_file f) (Id x) fs)) None in
          let* _ := cache_Set (cacheKeyDir +:+ Id x) lookup (5 * GoLib.Second) in
          range lookup
      end
  end.

Definition ReadonlyStat (f : openReadonlyFile) : M R (option fileInfo * option error) :=
  let* fi := newFileInfo (r_file f) in
  ret (Some fi, None).

(** [Close]: the body is closed where there is one (the field keeps its
    pointer), and the reader is dropped. *)
Definition ReadonlyClose (f : openReadonlyFile) : M R (openReadonlyFile * option error) :=
  ret (mkReadonly (r_file f) None (r_size f) (r_pos f) None (r_name f) (r_body f), None).

Definition stallTimeout : Z := GoLib.Second * 15.

Definition initContentReader (f : openReadonlyFile) : M R (openReadonlyFile * option error) :=
  match r_contentReader f with
  | Some _ => ret (f, None)
  | None =>
      let* x := deref (r_file f) in
      let* res := Files_Download (Id x) stallTimeout in
      match res with
      | inl e => ret (f, Some e)
      | inr body =>
          ret (mkReadonly (r_file f) (r_content f) (r_size f) (r_pos f)
                 (Some (mkTimeoutReader stallTimeout)) (r_name f) (Some body), None)
      end
  end.

(** Modelled from the spec: [getTimeoutReaderWrapperContext] and the reader
    it returns are not among the sources.  Following section 4.4, a read
    through the wrapper that receives nothing within the stall timeout
    fails with a timeout error of its own; any other read is the read of
    the body.  The result is what was read, what is left of the body, and
    the time the read took. *)
Definition timeoutReader_Read (tr : timeoutReader) (n : nat) (s : Stream)
    : (bytes * option error) * Stream * Z :=
  match s with
  | [] => (([], Some EOF), [], 0)
  | Hang :: _ => (([], Some ErrTimeout), s, tr_timeout tr)
  | Data wait bs :: s' =>
      if bool_decide (tr_timeout tr < wait) then (([], Some ErrTimeout), s, tr_timeout tr)
      else
        let rest := drop n bs in
        ((take n bs, None),
         match rest with [] => s' | _ => Data 0 rest :: s' end,
         Z.max 0 wait)
  | Fail wait e :: s' =>
      if bool_decide (tr_timeout tr < wait) then (([], Some ErrTimeout), s, tr_timeout tr)
      else (([], Some e), s', Z.max 0 wait)
  end.

(** Time passing while a call blocks. *)
Definition sleep (d : Z) : M R unit :=
  fun st => Ok tt (mkFS (client st) (calls st) (cache st) (now st + d)).

(** [Read(p)] with [n = len(p)]; the bytes returned are those stored in [p]. *)
Definition Read (f : openReadonlyFile) (n : nat)
    : M R (openReadonlyFile * (bytes * option error)) :=
  let* i := initContentReader f in
  let f := fst i in
  match snd i with
  | Some e => ret (f, ([], Some e))
  | None =>
      let* tr := deref (r_contentReader f) in
      let* body := deref (r_body f) in
      let '(res, body', elapsed) := timeoutReader_Read tr n body in
      let* _ := sleep elapsed in
      let f := mkReadonly (r_file f) (r_content f) (r_size f) (r_pos f)
                 (r_contentReader f) (r_name f) (Some body') in
      match snd res with
      | Some e => ret (f, ([], Some e))
      | None =>
          ret (mkReadonly (r_file f) (r_content f) (r_size f)
                 (GoLib.int64 (r_pos f + GoLib.int64 (Z.of_nat (length (fst res)))))
                 (r_contentReader f) (r_name f) (r_body f),
               (fst res, None))
      end
  end.

Definition Seek (f : openReadonlyFile) (offset whence : Z)
    : M R (openReadonlyFile * (Z * option error)) :=
  if decide (whence = 0) then
    ret (mkReadonly (r_file f) (r_content f) (r_size f) 0
           (r_contentReader f) (r_name f) (r_body f), (0, None))
  else if decide (whence = 2) then
    let* x := deref (r_file f) in
    ret (mkReadonly (r_file f) (r_content f) (Size x) (Size x)
           (r_contentReader f) (r_name f) (r_body f), (Size x, None))
  else panic "not implemented".

(** *** gdrive.go: OpenFile *)

Definition OpenFile (n : nat) (name : string) (flag perm : Z)
    : M R (option webdavFile * option error) :=
  let name := normalizePath name in
  if decide (Z.land flag GoLib.O_RDWR = 0) then
    if decide (flag = GoLib.O_RDONLY) then
      let* r := getFile n name false in
      match snd r with
      | Some e => ret (None, Some e)
      | None =>
          let* a := deref (fst r) in
          ret (Some (ReadonlyFile (mkReadonly (file a) None 0 0 None name None)), None)
      end
    else ret (None, Some (ErrOpenMode flag))
  else if decide (flag = Z.lor (Z.lor GoLib.O_RDWR GoLib.O_CREATE) GoLib.O_TRUNC) then
    ret (Some (WritableFile (mkWritable [] 0 name flag perm)), None)
  else panic "not implemented".

End FileSystem.

(** ** The file system as a transition system *)

(** What a WebDAV handler may ask of the file system and of the handles it
    holds. *)
Inductive request : Type :=
| ReqStat (name : string)
| ReqMkdir (name : string) (perm : Z)
| ReqOpenFile (name : string) (flag perm : Z)
| ReqRemoveAll (name : string)
| ReqWrite (f : openWritableFile) (p : bytes)
| ReqWritableClose (f : openWritableFile)
| ReqReaddir (f : openReadonlyFile) (count : Z)
| ReqRead (f : openReadonlyFile) (n : nat)
| ReqSeek (f : openReadonlyFile) (offset whence : Z)
| ReqReadonlyClose (f : openReadonlyFile).

Section Transitions.

Context {R : Type} `{DriveService R} `{TimeLib}.

Definition discard {A} (m : M R A) : M R unit := let* _ := m in ret tt.

Definition serve (n : nat) (q : request) : M R unit :=
  match q with
  | ReqStat name => discard (Stat n name)
  | ReqMkdir name perm => discard (Mkdir n name perm)
  | ReqOpenFile name flag perm => discard (OpenFile n name flag perm)
  | ReqRemoveAll name => discard (RemoveAll n name)
  | ReqWrite f p => discard (Write f p)
  | ReqWritableClose f => discard (WritableClose n f)
  | ReqReaddir f count => discard (Readdir f count)
  | ReqRead f k => discard (Read f k)
  | ReqSeek f offset whence => discard (Seek f offset whence)
  | ReqReadonlyClose f => discard (ReadonlyClose f)
  end.

(** The clock moving on between two calls. *)
Definition tick (d : Z) (st : fileSystem R) : fileSystem R :=
  mkFS (client st) (calls st) (cache st) (now st + d).

(** One step: a request served to its end or to a panic, time passing, or
    the store changing under other clients. *)
Inductive step : fileSystem R -> fileSystem R -> Prop :=
| step_served n q st st' : serve n q st = Ok tt st' -> step st st'
| step_panicked n q msg st st' : serve n q st = Panic msg st' -> step st st'
| step_tick d st : 0 <= d -> step st (tick d st)
| step_store r' st : step st (mkFS r' (calls st) (cache st) (now st)).

(** [NewFS]: a fresh cache. *)
Definition NewFS (r : R) (t : Z) : fileSystem R := mkFS r [] ∅ t.

Definition reachable (st : fileSystem R) : Prop :=
  exists r t, rtc step (NewFS r t) st.

(** The calls made between two states of one run. *)
Definition newCalls (st st' : fileSystem R) : list Call :=
  drop (length (calls st)) (calls st').

(** A [cache.Get] under [key] finds nothing. *)
Definition misses (st : fileSystem R) (key : string) : Prop :=
  cache_Get key st = Ok None st.

(** Every entry of the cache is a lookup that succeeded, on a file. *)
Definition found (v : fileLookupResult) : Prop :=
  err v = None /\ exists a x, fp v = Some a /\ file a = Some x.

Definition cache_ok (st : fileSystem R) : Prop :=
  forall key v e, cache st !! key = Some (v, e) -> found v.

(** A pair returned by [getFile] that has a file whenever it has no error. *)
Definition resolved (r : option fileAndPath * option error) : Prop :=
  snd r = None -> exists a x, fst r = Some a /\ file a = Some x.

(** The path [getFile0] resolves before it looks for [p]. *)
Definition parentOf (p : string) : string := GoLib.Dir (normalizePath p).

(** The resolution of [p] walks up [j] parents without a cache hit and
    without reaching the root. *)
Definition descent (st : fileSystem R) (p : string) (j : nat) : Prop :=
  forall i, (i <= j)%nat ->
    misses st (cacheKeyFile +:+ Nat.iter i parentOf p) /\
    ((i < j)%nat -> normalizePath (Nat.iter i parentOf p) <> "").

(** The cache differs between [st] and [st'] only under keys of the
    ancestors of [p] that a descent reaches. *)
Definition changesAbove (st st' : fileSystem R) (p : string) (from : nat) : Prop :=
  forall key,
    (forall j, (from <= j)%nat -> descent st p j ->
       key <> cacheKeyFile +:+ Nat.iter j parentOf p) ->
    cache st' !! key = cache st !! key.

(** Only queries were added to the trace between [st0] and [st]. *)
Definition queriesOnly (st0 st : fileSystem R) : Prop :=
  exists l, calls st = calls st0 ++ l /\ Forall (fun c => is_query c = true) l.

(** What a resolution leaves alone: the clock, the mutations of the trace,
    and the shape of the cache entries. *)
Definition resolving (st0 st : fileSystem R) : Prop :=
  now st = now st0 /\ queriesOnly st0 st /\ (cache_ok st0 -> cache_ok st).

(** Weakest precondition of a computation: [Q] after a return, [QP] after
    a panic. *)
Definition wp {A} (m : M R A) (Q : A -> fileSystem R -> Prop)
    (QP : fileSystem R -> Prop) (st : fileSystem R) : Prop :=
  match m st with
  | Ok a st' => Q a st'
  | Panic _ st' => QP st'
  | OutOfFuel => True
  end.

(** What [getFile], [getFileID] and [getFile0] establish from a state
    [st0] on: they keep [resolving], return a good result, and do not panic
    on a cache of found files. *)
Definition sound (st0 : fileSystem R) {A} (good : A -> Prop) (m : M R A) : Prop :=
  forall st, resolving st0 st ->
    wp m (fun r st' => resolving st0 st' /\ (cache_ok st0 -> good r))
         (fun _ => ~ cache_ok st0) st.

Definition identified (r : string * option error) : Prop := True.

(** The files of a listing that are not trashed. *)
Definition visible (fs : list File) : list File :=
  List.filter (fun x => negb (Trashed x)) fs.

(** The cache entry [Readdir] stores for a child [x] of the folder opened as
    [name], and the key it stores it under. *)
Definition childKey (name : string) (x : File) : string :=
  cacheKeyFile +:+ name +:+ "/" +:+ Name x.

Definition childEntry (name : string) (x : File) : fileLookupResult :=
  mkLookup (Some (mkFileAndPath (Some x) (name +:+ "/" +:+ Name x) [])) None.

Definition infoOf (x : File) : fileInfo := fileInfoOf x (fst (getModTime x)).

(** The cache after [Readdir] has stored the children [l] at instant [t]. *)
Definition warm (name : string) (t : Z) (c : gmap string (fileLookupResult * Z))
    (l : list File) : gmap string (fileLookupResult * Z) :=
  fold_left (fun c x => <[childKey name x := (childEntry name x, t + GoLib.Minute)]> c) l c.

(** The body a handle reads next: the one it holds, or the one a download
    opens for it. *)
Definition readsFrom (f : openReadonlyFile) (st : fileSystem R) (s : Stream) : Prop :=
  (r_contentReader f = Some (mkTimeoutReader stallTimeout) /\ r_body f = Some s) \/
  (r_contentReader f = None /\
   exists x r', r_file f = Some x /\
     files_download (Id x) stallTimeout (client st) = (inr s, r')).

(** A body whose next bytes, error or end do not come within [timeout]. *)
Definition stalls (timeout : Z) (s : Stream) : Prop :=
  match s with
  | [] => False
  | Hang :: _ => True
  | Data wait _ :: _ => timeout < wait
  | Fail wait _ :: _ => timeout < wait
  end.

(** What a caller sees of a call on a handle, the handle itself left out:
    the values returned and the state of the file system. *)
Definition observe {A B} (x : Res (fileSystem R) (A * B)) : Res (fileSystem R) B :=
  match x with
  | Ok a s => Ok (snd a) s
  | Panic msg s => Panic msg s
  | OutOfFuel => OutOfFuel
  end.

(** The handle [OpenFile] would build again for the file of [f]. *)
Definition reopened (f : openReadonlyFile) : openReadonlyFile :=
  mkReadonly (r_file f) None 0 0 None (r_name f) None.

(** A sequence of writes on one handle. *)
Fixpoint writeAll (f : openWritableFile) (ws : list bytes) : M R openWritableFile :=
  match ws with
  | [] => ret f
  | w :: ws' => let* r := Write f w in writeAll (fst r) ws'
  end.

End Transitions.

(** ** A store in memory

    An instance of the Drive interface to run the file system on: files
    with their bodies, a supply of identifiers for created files, and a
    switch that makes every call fail. *)

Module MemDrive.

Record Store : Type := mkStore {
  ms_files : list (File * Stream);
  ms_root : string;
  ms_fresh : list string;
  ms_up : bool
}.

Definition unavailable : error := ErrAPI "backendError".
Definition notFound : error := ErrAPI "notFound".

Definition resolveAlias (s : Store) (id : string) : string :=
  if decide (id = "root") then ms_root s else id.

Definition findById (s : Store) (id : string) : option (File * Stream) :=
  List.find (fun x => bool_decide (Id (fst x) = id)) (ms_files s).

(** A file answers a query when the query is one of those the package
    would write to select it. *)
Definition answers (q : string) (f : File) : bool :=
  existsb (fun pid =>
    bool_decide (q = listQuery pid)
    || bool_decide (q = childQuery pid (Name f) false)
    || (bool_decide (q = childQuery pid (Name f) true)
        && bool_decide (MimeType f = mimeTypeFolder))) (Parents f).

Definition store_get (id : string) (s : Store) : (error + File) * Store :=
  if ms_up s then
    match findById s (resolveAlias s id) with
    | Some x => (inr (fst x), s)
    | None => (inl notFound, s)
    end
  else (inl unavailable, s).

Definition store_list (q fields : string) (s : Store) : (error + list File) * Store :=
  if ms_up s then (inr (List.filter (answers q) (List.map fst (ms_files s))), s)
  else (inl unavailable, s).

Definition store_create (f : File) (media : option bytes) (s : Store) : (error + File) * Store :=
  if ms_up s then
    match ms_fresh s with
    | id :: fresh =>
        let f' := mkFile id (Name f) (MimeType f) false (Parents f)
                    (Z.of_nat (length (default [] media))) "" "" in
        (inr f', mkStore (ms_files s ++ [(f', [Data 0 (default [] media)])])
                   (ms_root s) fresh true)
    | [] => (inl unavailable, s)
    end
  else (inl unavailable, s).

Definition store_delete (id : string) (s : Store) : option error * Store :=
  if ms_up s then
    match findById s id with
    | Some _ =>
        (None, mkStore (List.filter (fun x => negb (bool_decide (Id (fst x) = id))) (ms_files s))
                 (ms_root s) (ms_fresh s) true)
    | None => (Some notFound, s)
    end
  else (Some unavailable, s).

Definition store_download (id : string) (timeout : Z) (s : Store) : (error + Stream) * Store :=
  if ms_up s then
    match findById s id with
    | Some x => (inr (snd x), s)
    | None => (inl notFound, s)
    end
  else (inl unavailable, s).

#[global] Instance drive : DriveService Store :=
  {| files_get := store_get; files_list := store_list; files_create := store_create;
     files_delete := store_delete; files_download := store_download |}.

(** Timestamps: every string but one parses. *)
#[global] Instance clock : TimeLib :=
  {| time_Parse_RFC3339 := fun s =>
       if decide (s = "yesterday") then inl (ErrAPI "parsing time") else inr 1700000000 |}.

Definition folder (id name parent : string) : File :=
  mkFile id name mimeTypeFolder false [parent] 0 "2023-11-14T22:13:20Z" "".

Definition document (id name parent : string) (content : string) : File :=
  mkFile id name "text/plain" false [parent] (Z.of_nat (String.length content))
    "2023-11-14T22:13:20Z" "".

Definition body (content : string) : Stream := [Data 0 (list_byte_of_string content)].

(** The store of the scenarios of the specification: the root [R], the
    folder [docs] with identifier [D], and [a.txt] with identifier [F]. *)
Definition rootFile : File := mkFile "R" "My Drive" mimeTypeFolder false [] 0 "" "".

Definition scenario : Store :=
  mkStore [ (rootFile, []);
            (folder "D" "docs" "R", []);
            (document "F" "a.txt" "D" "0123456789", body "0123456789") ]
    "R" ["N1"; "N2"] true.

Definition down (s : Store) : Store :=
  mkStore (ms_files s) (ms_root s) (ms_fresh s) false.

Definition docs : File := folder "D" "docs" "R".
Definition aTxt : File := document "F" "a.txt" "D" "0123456789".


(** A store whose file [slow.bin] sends three bytes and then nothing. *)
Definition slowFile : File := document "S" "slow.bin" "R" "abc".

Definition stalled : Store :=
  mkStore [ (rootFile, []); (slowFile, [Data 0 (list_byte_of_string "abc"); Hang]) ]
    "R" [] true.

(** The file system just created on a store, at some instant. *)
Definition fresh : fileSystem Store := NewFS scenario 100.

Definition stateOf {A} (x : Res (fileSystem Store) A) : fileSystem Store :=
  match x with
  | Ok _ s | Panic _ s => s
  | OutOfFuel => fresh
  end.

Definition valueOf {A} (x : Res (fileSystem Store) A) : option A :=
  match x with
  | Ok a _ => Some a
  | _ => None
  end.

(** The cached lookup under a key, without its expiry. *)
Definition cached (st : fileSystem Store) (key : string) : option fileLookupResult :=
  fst <$> cache st !! key.

(** The read handle [OpenFile] returns for [name]. *)
Definition handleOn (x : File) (name : string) : openReadonlyFile :=
  mkReadonly (Some x) None 0 0 None name None.

(** Opening and listing [/docs], removing [/docs/a.txt], and listing
    [/docs] again. *)
Definition opened : fileSystem Store := stateOf (OpenFile 5 "/docs" 0 0 fresh).
Definition listed : fileSystem Store := stateOf (Readdir (handleOn docs "/docs") 0 opened).
Definition removed : fileSystem Store := stateOf (RemoveAll 5 "/docs/a.txt" listed).
Definition relisted : fileSystem Store := stateOf (Readdir (handleOn docs "/docs") 0 removed).

(** Opening [/docs/a.txt] and reading three bytes of it. *)
Definition openedFile : fileSystem Store := stateOf (OpenFile 5 "/docs/a.txt" 0 0 fresh).

Definition readThree : Res (fileSystem Store) (openReadonlyFile * (bytes * option error)) :=
  Read (handleOn aTxt "/docs/a.txt") 3 openedFile.

Definition afterRead : openReadonlyFile :=
  default (handleOn aTxt "/docs/a.txt") (fst <$> valueOf readThree).

Definition rewound : openReadonlyFile :=
  default afterRead (fst <$> valueOf (Seek afterRead 0 0 (stateOf readThree))).

(** A store whose file [bad.txt] carries a creation time that is no RFC 3339
    instant, and no modification time. *)
Definition badFile : File := mkFile "B" "bad.txt" "text/plain" false ["D"] 3 "yesterday" "".

Definition misdated : Store :=
  mkStore [ (rootFile, []); (docs, []); (badFile, body "bad") ] "R" [] true.

(** The file system after [/docs/a.txt] has been looked up, and after
    [/docs] has then been removed. *)
Definition lookedUp : fileSystem Store := stateOf (Stat 5 "/docs/a.txt" fresh).
Definition folderRemoved : fileSystem Store := stateOf (RemoveAll 5 "/docs" lookedUp).

End MemDrive.

(** * Properties *)

(** ** The Go library functions on the paths of the scenarios *)

Example Dir_nested : GoLib.Dir "/docs/a.txt" = "/docs".
Proof. reflexivity. Qed.
Example Dir_top : GoLib.Dir "/docs" = "/".
Proof. reflexivity. Qed.
Example Dir_relative : GoLib.Dir "docs" = ".".
Proof. reflexivity. Qed.
Example Dir_dot : GoLib.Dir "." = ".".
Proof. reflexivity. Qed.
Example Dir_dotdot : GoLib.Dir "/a/../b/c" = "/b".
Proof. reflexivity. Qed.
Example Base_nested : GoLib.Base "/docs/a.txt" = "a.txt".
Proof. reflexivity. Qed.
Example Base_root : GoLib.Base "/" = "/".
Proof. reflexivity. Qed.
Example Base_empty : GoLib.Base "" = ".".
Proof. reflexivity. Qed.
Example trim_many : GoLib.trimRightSlash "/a//" = "/a".
Proof. reflexivity. Qed.
Example trim_root : GoLib.trimRightSlash "///" = "".
Proof. reflexivity. Qed.

Section Resolution.

Context {R : Type} {DS : DriveService R}.

Implicit Types (st : fileSystem R) (p key : string) (n : nat).

(** ** Running the monad *)

Lemma bind_Ok {A B} (m : M R A) (k : A -> M R B) st b st' :
  bind m k st = Ok b st' ->
  exists a st1, m st = Ok a st1 /\ k a st1 = Ok b st'.
Proof.
  unfold bind. destruct (m st) as [a st1| |]; intros E; try discriminate.
  eauto.
Qed.

Lemma bind_Panic {A B} (m : M R A) (k : A -> M R B) st msg st' :
  bind m k st = Panic msg st' ->
  m st = Panic msg st' \/ exists a st1, m st = Ok a st1 /\ k a st1 = Panic msg st'.
Proof.
  unfold bind. destruct (m st) as [a st1| |]; intros E; try discriminate.
  - right. eauto.
  - left. congruence.
Qed.

Lemma bind_run {A B} (m : M R A) (k : A -> M R B) st a st1 :
  m st = Ok a st1 -> bind m k st = k a st1.
Proof. unfold bind. intros ->. reflexivity. Qed.

Lemma getFile0_S n p b : getFile0 (S n) p b = getFile0_over (getFileID n) p b.
Proof. reflexivity. Qed.

Lemma key_inj p q : cacheKeyFile +:+ p = cacheKeyFile +:+ q -> p = q.
Proof. intros E. exact (String.app_inj _ _ _ E). Qed.

(** The loop of [getFile0] returns the head of the files left when the
    trashed ones are filtered out. *)
Lemma firstFile_filter p (fs : list File) :
  firstFile p fs =
  match List.filter (fun f => negb (Trashed f)) fs with
  | [] => (None, Some ErrNotExist)
  | f :: _ => (Some (mkFileAndPath (Some f) p []), None)
  end.
Proof.
  induction fs as [|f fs IH]; simpl; [reflexivity|].
  unfold ignoreFile. destruct (Trashed f); simpl; [exact IH | reflexivity].
Qed.

(** The file [firstFile] picks is not trashed and only trashed files come
    before it in the listing. *)
Lemma firstFile_first p (fs : list File) a :
  firstFile p fs = (Some a, None) ->
  exists f pre post,
    a = mkFileAndPath (Some f) p [] /\ fs = pre ++ f :: post /\
    Trashed f = false /\ Forall (fun g => Trashed g = true) pre.
Proof.
  induction fs as [|g fs IH]; simpl; [discriminate|].
  unfold ignoreFile. destruct (Trashed g) eqn:T.
  - intros E. destruct (IH E) as (f & pre & post & -> & -> & Tf & Hpre).
    exists f, (g :: pre), post. repeat split; auto.
  - intros E. injection E as <-. exists g, [], fs. repeat split; auto.
Qed.

(** C2 (amended). For a path that normalizes to the empty string the
    resolver makes exactly one remote call, the fetch of the object named
    root, and no listing query; it succeeds exactly when that fetch does,
    with the fetched object under the path "/", and returns the error of
    the fetch otherwise. *)
Theorem getFile0_root n p b st :
  normalizePath p = "" ->
  let (res, r') := files_get "root" (client st) in
  let st' := mkFS r' (calls st ++ [CGet "root"]) (cache st) (now st) in
  getFile0 (S n) p b st =
  match res with
  | inl e => Ok (None, Some e) st'
  | inr f => Ok (Some (mkFileAndPath (Some f) "/" []), None) st'
  end.
Proof.
  intros Hp. rewrite getFile0_S. unfold getFile0_over. rewrite Hp.
  destruct (decide ("" = "")) as [_|N]; [|congruence].
  unfold bind, Files_Get, remote.
  destruct (files_get "root" (client st)) as [[e|f] r']; reflexivity.
Qed.


End Resolution.

(** ** A small program logic for the monad *)

Section Logic.

Context {R : Type} {DS : DriveService R} {TL : TimeLib}.

Implicit Types (st : fileSystem R) (p key : string) (n : nat).

Lemma wp_bind {A B} (m : M R A) (k : A -> M R B) Q QP st :
  wp m (fun a st1 => wp (k a) Q QP st1) QP st -> wp (bind m k) Q QP st.
Proof.
  unfold wp, bind. destruct (m st) as [a st1|msg st1|]; auto.
Qed.

Lemma wp_ret {A} (a : A) (Q : A -> fileSystem R -> Prop) QP st :
  Q a st -> wp (ret a) Q QP st.
Proof. exact id. Qed.

Lemma wp_panic {A} msg (Q : A -> fileSystem R -> Prop) (QP : fileSystem R -> Prop) st :
  QP st -> wp (panic msg) Q QP st.
Proof. exact id. Qed.

Lemma wp_mono {A} (m : M R A) (Q Q' : A -> fileSystem R -> Prop)
    (QP QP' : fileSystem R -> Prop) st :
  wp m Q QP st ->
  (forall a st', Q a st' -> Q' a st') -> (forall st', QP st' -> QP' st') ->
  wp m Q' QP' st.
Proof.
  unfold wp. destruct (m st); auto.
Qed.

Lemma wp_Ok {A} (m : M R A) Q QP st a st' :
  wp m Q QP st -> m st = Ok a st' -> Q a st'.
Proof. unfold wp. intros W E. rewrite E in W. exact W. Qed.

Lemma wp_Panic {A} (m : M R A) Q QP st msg st' :
  wp m Q QP st -> m st = Panic msg st' -> QP st'.
Proof. unfold wp. intros W E. rewrite E in W. exact W. Qed.

Lemma wp_deref {A} (o : option A) (Q : A -> fileSystem R -> Prop)
    (QP : fileSystem R -> Prop) st :
  match o with Some a => Q a st | None => QP st end -> wp (deref o) Q QP st.
Proof. destruct o; exact id. Qed.

Lemma wp_cache_Get key (Q : option fileLookupResult -> fileSystem R -> Prop) QP st :
  (forall v e, cache st !! key = Some (v, e) -> now st <= e -> Q (Some v) st) ->
  (misses st key -> Q None st) ->
  wp (cache_Get key) Q QP st.
Proof.
  unfold wp, misses, cache_Get. intros Hhit Hmiss.
  destruct (cache st !! key) as [[v e]|] eqn:E.
  - destruct (bool_decide (now st <= e)) eqn:D.
    + apply Hhit with e; [reflexivity|]. by apply bool_decide_eq_true in D.
    + by apply Hmiss.
  - by apply Hmiss.
Qed.

Lemma wp_cache_Set key v d (Q : unit -> fileSystem R -> Prop) QP st :
  Q tt (mkFS (client st) (calls st) (<[key := (v, now st + d)]> (cache st)) (now st)) ->
  wp (cache_Set key v d) Q QP st.
Proof. exact id. Qed.

Lemma wp_cache_Delete key (Q : unit -> fileSystem R -> Prop) QP st :
  Q tt (mkFS (client st) (calls st) (delete key (cache st)) (now st)) ->
  wp (cache_Delete key) Q QP st.
Proof. exact id. Qed.

Lemma wp_remote {A} c (op : R -> A * R) (Q : A -> fileSystem R -> Prop) QP st :
  (forall a r', op (client st) = (a, r') ->
     Q a (mkFS r' (calls st ++ [c]) (cache st) (now st))) ->
  wp (remote c op) Q QP st.
Proof.
  unfold wp, remote. intros HQ. destruct (op (client st)) as [a r'] eqn:E. by apply HQ.
Qed.

(** *** The invariants of a resolution *)

Lemma resolving_refl st : resolving st st.
Proof.
  split; [reflexivity|]. split; [|auto].
  exists []. by rewrite app_nil_r.
Qed.

Lemma resolving_query st0 st c r' :
  is_query c = true -> resolving st0 st ->
  resolving st0 (mkFS r' (calls st ++ [c]) (cache st) (now st)).
Proof.
  intros Hc (Hnow & (l & Hl & Hq) & Hok). split; [exact Hnow|]. split; [|exact Hok].
  exists (l ++ [c]). simpl. rewrite Hl, app_assoc. split; [reflexivity|].
  apply Forall_app. split; [exact Hq|]. by constructor.
Qed.

Lemma cache_ok_insert st key v e :
  found v -> cache_ok st ->
  cache_ok (mkFS (client st) (calls st) (<[key := (v, e)]> (cache st)) (now st)).
Proof.
  intros Hv Hok k w e'. simpl. rewrite lookup_insert.
  case_decide; [|apply Hok]. intros [= <- <-]. exact Hv.
Qed.

Lemma cache_ok_delete st key :
  cache_ok st ->
  cache_ok (mkFS (client st) (calls st) (delete key (cache st)) (now st)).
Proof.
  intros Hok k w e'. simpl. rewrite lookup_delete.
  case_decide; [discriminate|apply Hok].
Qed.

Lemma resolving_insert st0 st key v d :
  (cache_ok st0 -> found v) -> resolving st0 st ->
  resolving st0 (mkFS (client st) (calls st) (<[key := (v, now st + d)]> (cache st)) (now st)).
Proof.
  intros Hv (Hnow & Hq & Hok). split; [exact Hnow|]. split; [exact Hq|].
  intros H0. apply cache_ok_insert; auto.
Qed.

Lemma getFile_over_sound st0 g0 :
  (forall p b, sound st0 resolved (g0 p b)) ->
  forall p b, sound st0 resolved (getFile_over g0 p b).
Proof.
  intros Hg p b st Hst. unfold getFile_over.
  apply wp_bind, wp_cache_Get.
  - intros v e Hv _. apply wp_ret. split; [exact Hst|].
    intros H0. destruct Hst as (_ & _ & Hok).
    destruct (Hok H0 _ _ _ Hv) as (He & a & x & Ha & Hx).
    intros _. simpl. eauto.
  - intros _. apply wp_bind. eapply wp_mono; [apply Hg, Hst| |auto].
    intros [a e] st1 [Hst1 Hr]. simpl in *.
    destruct e as [e|].
    + apply wp_bind, wp_ret, wp_ret. simpl. split; [exact Hst1|]. intros _ [=].
    + apply wp_bind, wp_cache_Set, wp_ret. simpl. split.
      * apply resolving_insert; [|exact Hst1].
        intros H0. split; [reflexivity|]. simpl. apply (Hr H0). reflexivity.
      * exact Hr.
Qed.

Lemma getFileID_over_sound st0 g :
  (forall p b, sound st0 resolved (g p b)) ->
  forall p b, sound st0 identified (getFileID_over g p b).
Proof.
  intros Hg p b st Hst. unfold getFileID_over.
  apply wp_bind. eapply wp_mono; [apply Hg, Hst| |auto].
  intros [a e] st1 [Hst1 Hr]. simpl in *.
  destruct e as [e|]; [apply wp_ret; by split|].
  apply wp_bind, wp_deref. destruct a as [a|].
  - apply wp_bind, wp_deref. destruct (file a) as [x|] eqn:Hx.
    + apply wp_ret. by split.
    + intros H0. destruct (Hr H0 eq_refl) as (a' & x & [= <-] & Hx'). congruence.
  - intros H0. destruct (Hr H0 eq_refl) as (a' & x & [=] & _).
Qed.

Lemma firstFile_resolved p fs : resolved (firstFile p fs).
Proof.
  rewrite firstFile_filter. destruct (List.filter _ fs); [intros [=]|].
  intros _. simpl. eauto.
Qed.

Lemma getFile0_over_sound st0 gid :
  (forall p b, sound st0 identified (gid p b)) ->
  forall p b, sound st0 resolved (getFile0_over gid p b).
Proof.
  intros Hg p b st Hst. unfold getFile0_over.
  destruct (decide (normalizePath p = "")) as [_|_].
  - apply wp_bind, wp_remote. intros [e|f] r' _; apply wp_ret.
    + split; [by apply resolving_query|]. intros _ [=].
    + split; [by apply resolving_query|]. intros _ _. simpl. eauto.
  - apply wp_bind. eapply wp_mono; [apply Hg, Hst| |auto].
    intros [id e] st1 [Hst1 _]. simpl.
    destruct e as [e|]; [apply wp_ret; split; [exact Hst1|intros _ [=]]|].
    apply wp_bind, wp_remote. intros [e|fs] r' _; apply wp_ret.
    + split; [by apply resolving_query|]. intros _ [=].
    + split; [by apply resolving_query|]. intros _. apply firstFile_resolved.
Qed.

Lemma getFile0_sound st0 n p b : sound st0 resolved (getFile0 n p b).
Proof.
  revert p b. induction n as [|n IH]; intros p b.
  - intros st _. exact I.
  - rewrite getFile0_S. apply getFile0_over_sound.
    apply getFileID_over_sound, getFile_over_sound, IH.
Qed.

Lemma getFile_sound st0 n p b : sound st0 resolved (getFile n p b).
Proof. apply getFile_over_sound. intros. apply getFile0_sound. Qed.

Lemma getFileID_sound st0 n p b : sound st0 identified (getFileID n p b).
Proof. apply getFileID_over_sound. intros. apply getFile_sound. Qed.

Lemma cache_ok_same st st' : cache st' = cache st -> cache_ok st -> cache_ok st'.
Proof. unfold cache_ok. intros ->. auto. Qed.

Lemma wp_sleep d (Q : unit -> fileSystem R -> Prop) (QP : fileSystem R -> Prop) st :
  Q tt (mkFS (client st) (calls st) (cache st) (now st + d)) -> wp (sleep d) Q QP st.
Proof. exact id. Qed.

End Logic.

(** One rule of the logic, chosen by the head of the computation. *)
Ltac wp_step :=
  lazymatch goal with
  | |- wp (ret _) _ _ _ => apply wp_ret
  | |- wp (panic _) _ _ _ => apply wp_panic
  | |- wp (bind _ _) _ _ _ => apply wp_bind
  | |- wp (cache_Set _ _ _) _ _ _ => apply wp_cache_Set
  | |- wp (cache_Delete _) _ _ _ => apply wp_cache_Delete
  | |- wp (remote _ _) _ _ _ => apply wp_remote; intros ? ? _
  | |- wp (sleep _) _ _ _ => apply wp_sleep
  | |- wp (deref ?o) _ _ _ => apply wp_deref; destruct o eqn:?
  | |- wp (match ?x with _ => _ end) _ _ _ => destruct x eqn:?
  | |- wp (if ?c then _ else _) _ _ _ => destruct c
  end.

(** [cache_ok] of a state whose cache is that of a state known to be sound,
    up to deletions. *)
Ltac keep_ok :=
  repeat apply cache_ok_delete;
  match goal with
  | H : cache_ok ?s |- cache_ok ?s' => exact H
  | H : cache_ok ?s |- cache_ok ?s' => apply (cache_ok_same s s'); [reflexivity | exact H]
  end.

(** ** The cache holds found files in every reachable state *)

Section Reachable.

Context {R : Type} {DS : DriveService R} {TL : TimeLib}.

Implicit Types (st : fileSystem R) (p key : string) (n : nat).

(** A resolution run from a state whose cache is sound. *)
Lemma wp_sound {A} (good : A -> Prop) (m : M R A) st
    (Q : A -> fileSystem R -> Prop) (QP : fileSystem R -> Prop) :
  sound st good m -> cache_ok st ->
  (forall r st1, resolving st st1 -> cache_ok st1 -> good r -> Q r st1) ->
  wp m Q QP st.
Proof.
  intros Hm Hok HQ. eapply wp_mono; [apply Hm, resolving_refl| |].
  - intros r st1 [Hst1 Hr]. apply HQ; auto. by apply Hst1.
  - intros st1 N. by destruct N.
Qed.

(** [m] keeps the cache sound, whether it returns or panics. *)
Abbreviation keeps m st := (wp m (fun _ st' => cache_ok st') (fun st' => cache_ok st') st).

Lemma newFileInfo_keeps f st : cache_ok st -> keeps (newFileInfo f) st.
Proof.
  intros Hok. unfold newFileInfo. repeat wp_step; auto.
Qed.

Lemma Stat_keeps n name st : cache_ok st -> keeps (Stat n name) st.
Proof.
  intros Hok. unfold Stat. apply wp_bind.
  apply (wp_sound _ _ _ _ _ (getFile_sound st n name false) Hok).
  intros [a e] st1 _ Hok1 _. simpl.
  destruct e; [by wp_step|]. destruct a as [a|]; [|by wp_step].
  apply wp_bind. eapply wp_mono; [by apply newFileInfo_keeps| |auto].
  intros fi st2 Hok2. by wp_step.
Qed.

Lemma invalidatePath_keeps p st : cache_ok st -> keeps (invalidatePath p) st.
Proof. intros Hok. apply wp_cache_Delete. by apply cache_ok_delete. Qed.

Lemma Mkdir_keeps n name perm st : cache_ok st -> keeps (Mkdir n name perm) st.
Proof.
  intros Hok. unfold Mkdir. apply wp_bind.
  apply (wp_sound _ _ _ _ _ (getFileID_sound st n _ false) Hok).
  intros [id e] st1 _ Hok1 _. simpl.
  destruct e as [e|]; [|by wp_step].
  destruct (decide (e = ErrNotExist)); [|by wp_step].
  apply wp_bind.
  apply (wp_sound _ _ _ _ _ (getFileID_sound st1 n _ true) Hok1).
  intros [pid e'] st2 _ Hok2 _. simpl.
  destruct e'; [by wp_step|].
  unfold Files_Create, invalidatePath.
  repeat wp_step; keep_ok.
Qed.

Lemma RemoveAll_keeps n name st : cache_ok st -> keeps (RemoveAll n name) st.
Proof.
  intros Hok. unfold RemoveAll. apply wp_bind.
  apply (wp_sound _ _ _ _ _ (getFileID_sound st n _ false) Hok).
  intros [id e] st1 _ Hok1 _. simpl.
  destruct e as [e|]; [by wp_step|].
  unfold Files_Delete, invalidatePath.
  repeat wp_step; keep_ok.
Qed.

Lemma WritableClose_keeps n f st : cache_ok st -> keeps (WritableClose n f) st.
Proof.
  intros Hok. unfold WritableClose. apply wp_bind.
  apply (wp_sound _ _ _ _ _ (getFileID_sound st n _ false) Hok).
  intros [id e] st1 _ Hok1 _. simpl.
  assert (keeps
    (if decide (id = "") then
       let* r := getFileID n (GoLib.Dir (w_name f)) true in
       match snd r with
       | Some e => ret (Some e)
       | None =>
           if decide (fst r = "") then ret (Some ErrNotExist)
           else
             let* c := Files_Create (mkFile "" (GoLib.Base (w_name f)) "" false [fst r] 0 "" "")
                         (Some (w_buffer f)) in
             match c with
             | inl e => ret (Some e)
             | inr _ =>
                 let* _ := invalidatePath (w_name f) in
                 let* _ := invalidatePath (GoLib.Dir (w_name f)) in
                 ret None
             end
       end
     else ret (Some ErrExist)) st1) as Hcreate.
  { destruct (decide (id = "")); [|by wp_step].
    apply wp_bind.
    apply (wp_sound _ _ _ _ _ (getFileID_sound st1 n _ true) Hok1).
    intros [pid e'] st2 _ Hok2 _. simpl.
    destruct e'; [by wp_step|].
    unfold Files_Create, invalidatePath.
    repeat wp_step; keep_ok. }
  destruct e as [e|]; [|exact Hcreate].
  destruct (decide (e = ErrNotExist)); [exact Hcreate|by wp_step].
Qed.

Lemma OpenFile_keeps n name flag perm st : cache_ok st -> keeps (OpenFile n name flag perm) st.
Proof.
  intros Hok. unfold OpenFile.
  destruct (decide (Z.land flag GoLib.O_RDWR = 0)) as [_|_].
  - destruct (decide (flag = GoLib.O_RDONLY)) as [_|_]; [|by wp_step].
    apply wp_bind.
    apply (wp_sound _ _ _ _ _ (getFile_sound st n _ false) Hok).
    intros [a e] st1 _ Hok1 _. simpl.
    destruct e; repeat wp_step; auto.
  - repeat wp_step; auto.
Qed.

Lemma readdirRange_keeps name l infos st :
  cache_ok st -> keeps (readdirRange name l infos) st.
Proof.
  revert infos st. induction l as [|x l IH]; intros infos st Hok; simpl.
  - by wp_step.
  - destruct (ignoreFile x); [by apply IH|].
    apply wp_bind. eapply wp_mono; [by apply newFileInfo_keeps| |auto].
    intros fi st1 Hok1. simpl. apply wp_bind, wp_cache_Set, IH.
    apply cache_ok_insert; [|exact Hok1].
    split; [reflexivity|]. simpl. eauto.
Qed.

Lemma Readdir_keeps f count st : cache_ok st -> keeps (Readdir f count) st.
Proof.
  intros Hok. unfold Readdir.
  assert (forall v st1, cache_ok st1 ->
    keeps (let* a := deref (fp v) in
           let* infos := readdirRange (r_name f) (files a) [] in
           ret (Some infos, @None error)) st1) as Hrange.
  { intros v st1 Hok1. apply wp_bind, wp_deref. destruct (fp v) as [a|]; [|exact Hok1].
    apply wp_bind. eapply wp_mono; [by apply readdirRange_keeps| |auto].
    intros infos st2 Hok2. by wp_step. }
  apply wp_bind, wp_deref. destruct (r_file f) as [x|]; [|exact Hok].
  apply wp_bind, wp_cache_Get.
  - intros v e _ _. by apply Hrange.
  - intros _. unfold Files_List. apply wp_bind, wp_remote. intros [e|fs] r' _; [by wp_step|].
    apply wp_bind, wp_cache_Set, Hrange.
    apply cache_ok_insert; [|keep_ok].
    split; [reflexivity|]. simpl. eauto.
Qed.

Lemma Read_keeps f k st : cache_ok st -> keeps (Read f k) st.
Proof.
  intros Hok. unfold Read, initContentReader, Files_Download.
  apply wp_bind.
  assert (forall (Q : openReadonlyFile * option error -> fileSystem R -> Prop),
    (forall r st1, cache_ok st1 -> Q r st1) ->
    wp (match r_contentReader f with
        | Some _ => ret (f, None)
        | None =>
            let* x := deref (r_file f) in
            let* res := remote (CDownload (Id x)) (files_download (Id x) stallTimeout) in
            match res with
            | inl e => ret (f, Some e)
            | inr body =>
                ret (mkReadonly (r_file f) (r_content f) (r_size f) (r_pos f)
                       (Some (mkTimeoutReader stallTimeout)) (r_name f) (Some body), None)
            end
        end) Q (fun st' => cache_ok st') st) as Hinit.
  { intros Q HQ. repeat wp_step; try apply HQ; keep_ok. }
  apply Hinit. intros [g e] st1 Hok1. simpl.
  destruct e; [by wp_step|].
  repeat wp_step; keep_ok.
Qed.

Lemma serve_keeps n q st : cache_ok st -> keeps (serve n q) st.
Proof.
  intros Hok. destruct q; simpl; unfold discard; apply wp_bind.
  - eapply wp_mono; [by apply Stat_keeps| |auto]. intros; by wp_step.
  - eapply wp_mono; [by apply Mkdir_keeps| |auto]. intros; by wp_step.
  - eapply wp_mono; [by apply OpenFile_keeps| |auto]. intros; by wp_step.
  - eapply wp_mono; [by apply RemoveAll_keeps| |auto]. intros; by wp_step.
  - unfold Write. repeat wp_step. exact Hok.
  - eapply wp_mono; [by apply WritableClose_keeps| |auto]. intros; by wp_step.
  - eapply wp_mono; [by apply Readdir_keeps| |auto]. intros; by wp_step.
  - eapply wp_mono; [by apply Read_keeps| |auto]. intros; by wp_step.
  - unfold Seek. repeat wp_step; exact Hok.
  - unfold ReadonlyClose. repeat wp_step. exact Hok.
Qed.

Lemma step_cache_ok st st' : step st st' -> cache_ok st -> cache_ok st'.
Proof.
  intros [n q ? ? E|n q msg ? ? E|d ? _|r' ?] Hok.
  - exact (wp_Ok _ _ _ _ _ _ (serve_keeps n q _ Hok) E).
  - exact (wp_Panic _ _ _ _ _ _ (serve_keeps n q _ Hok) E).
  - exact Hok.
  - exact Hok.
Qed.

Lemma reachable_cache_ok st : reachable st -> cache_ok st.
Proof.
  intros (r & t & Hrtc).
  assert (cache_ok (NewFS r t)) as H0.
  { intros key v e. unfold NewFS. simpl. by rewrite lookup_empty. }
  induction Hrtc as [|x y z Hxy _ IH]; [exact H0|].
  apply IH. by eapply step_cache_ok.
Qed.

End Reachable.

(** ** What a lookup leaves in the cache *)

Section Caching.

Context {R : Type} {DS : DriveService R} {TL : TimeLib}.

Implicit Types (st : fileSystem R) (p key : string) (n : nat).

Lemma getFile_miss g0 p b st :
  misses st (cacheKeyFile +:+ p) ->
  getFile_over g0 p b st =
  (let* r := g0 p b in
   let* _ := (match snd r with
              | None => cache_Set (cacheKeyFile +:+ p) (mkLookup (fst r) (snd r)) GoLib.Minute
              | Some _ => ret tt
              end) in
   ret (fst r, snd r)) st.
Proof.
  intros Hm. unfold getFile_over. unfold bind at 1. rewrite Hm. reflexivity.
Qed.

Lemma getFile_hit g0 p b st v e :
  cache st !! (cacheKeyFile +:+ p) = Some (v, e) -> now st <= e ->
  getFile_over g0 p b st = Ok (fp v, err v) st.
Proof.
  intros Hv He. unfold getFile_over, bind, cache_Get. rewrite Hv.
  rewrite bool_decide_eq_true_2 by exact He. reflexivity.
Qed.

Lemma getFile_cases g0 p b st :
  (exists v, getFile_over g0 p b st = Ok (fp v, err v) st /\
     exists e, cache st !! (cacheKeyFile +:+ p) = Some (v, e)) \/
  misses st (cacheKeyFile +:+ p).
Proof.
  unfold misses, cache_Get.
  destruct (cache st !! (cacheKeyFile +:+ p)) as [[v e]|] eqn:E; [|by right].
  destruct (bool_decide (now st <= e)) eqn:D; [|by right].
  left. exists v. split; [|eauto].
  apply getFile_hit with e; [exact E|]. by apply bool_decide_eq_true in D.
Qed.

Lemma getFileID_Ok g p b st r st' :
  getFileID_over g p b st = Ok r st' ->
  exists a, g p b st = Ok a st' /\
    match snd a with
    | Some e => r = ("", Some e)
    | None => exists fa x, fst a = Some fa /\ file fa = Some x /\ r = (Id x, None)
    end.
Proof.
  unfold getFileID_over. intros E. apply bind_Ok in E as ([a e] & st1 & Hg & E).
  simpl in E. destruct e as [e|].
  - injection E as <- <-. exists (a, Some e). by split.
  - cbv [bind deref ret panic] in E.
    destruct a as [fa|]; [|discriminate].
    destruct (file fa) as [x|] eqn:Hx; [|discriminate].
    injection E as <- <-. exists (Some fa, None). split; [exact Hg|]. simpl. eauto.
Qed.

Lemma descent_parent st p j :
  misses st (cacheKeyFile +:+ p) -> normalizePath p <> "" ->
  descent st (parentOf p) j -> descent st p (S j).
Proof.
  intros Hm Hp Hd [|i] Hi.
  - split; [exact Hm|]. intros _. exact Hp.
  - rewrite Nat.iter_succ_r. destruct (Hd i) as [Hmi Hni]; [lia|].
    split; [exact Hmi|]. intros Hlt. apply Hni. lia.
Qed.

(** A resolution stores nothing but lookups of the ancestors its descent
    reaches; [getFile0] itself stores nothing under the key of its path. *)
Lemma getFile0_changes n :
  (forall p b st r st', getFile n p b st = Ok r st' -> changesAbove st st' p 0) ->
  forall p b st r st',
    misses st (cacheKeyFile +:+ p) ->
    getFile0 (S n) p b st = Ok r st' -> changesAbove st st' p 1.
Proof.
  intros IH p b st r st' Hm E key Hkey.
  rewrite getFile0_S in E. unfold getFile0_over in E.
  destruct (decide (normalizePath p = "")) as [_|Hp].
  - apply bind_Ok in E as (a & st1 & Hget & E).
    unfold Files_Get, remote in Hget.
    destruct (files_get "root" (client st)) as [x r'].
    injection Hget as <- <-. destruct x; injection E as <- <-; reflexivity.
  - apply bind_Ok in E as ([id e] & st1 & Hid & E).
    apply getFileID_Ok in Hid as (a & Hg & _).
    assert (cache st1 !! key = cache st !! key) as H1.
    { apply (IH _ _ _ _ _ Hg). intros j _ Hd.
      change (GoLib.Dir (normalizePath p)) with (parentOf p) in *.
      rewrite <- Nat.iter_succ_r. apply Hkey; [lia|].
      by apply descent_parent. }
    simpl in E. destruct e as [e|]; [by injection E as <- <-|].
    apply bind_Ok in E as (l & st2 & Hl & E).
    unfold Files_List, remote in Hl.
    destruct (files_list _ _ (client st1)) as [x r'].
    injection Hl as <- <-. destruct x; injection E as <- <-; exact H1.
Qed.

Lemma getFile_changes n p b st r st' :
  getFile n p b st = Ok r st' -> changesAbove st st' p 0.
Proof.
  revert p b st r st'. induction n as [|n IH]; intros p b st r st' E.
  - destruct (getFile_cases (getFile0 0) p b st) as [(v & Hv & _)|Hm].
    + unfold getFile in E. rewrite Hv in E. injection E as <- <-. by intros key _.
    + unfold getFile in E. rewrite (getFile_miss _ _ _ _ Hm) in E. discriminate.
  - destruct (getFile_cases (getFile0 (S n)) p b st) as [(v & Hv & _)|Hm].
    + unfold getFile in E. rewrite Hv in E. injection E as <- <-. by intros key _.
    + unfold getFile in E. rewrite (getFile_miss _ _ _ _ Hm) in E.
      apply bind_Ok in E as ([a e] & st0 & H0 & E).
      pose proof (getFile0_changes n IH _ _ _ _ _ Hm H0) as Hch.
      intros key Hkey.
      assert (cache st0 !! key = cache st !! key) as H1.
      { apply Hch. intros j _ Hd. apply Hkey; [lia|exact Hd]. }
      assert (key <> cacheKeyFile +:+ p) as Hne.
      { apply (Hkey 0%nat); [lia|]. intros i Hi. assert (i = 0%nat) as -> by lia.
        split; [exact Hm|lia]. }
      simpl in E. destruct e as [e|].
      * injection E as <- <-. exact H1.
      * injection E as <- <-. simpl. by rewrite lookup_insert_ne.
Qed.

(** A descent that comes back to its starting path never ends. *)
Lemma descent_forever n :
  forall p b st,
    (forall i, misses st (cacheKeyFile +:+ Nat.iter i parentOf p) /\
               normalizePath (Nat.iter i parentOf p) <> "") ->
    getFile n p b st = OutOfFuel.
Proof.
  induction n as [|n IH]; intros p b st Hall; unfold getFile.
  - rewrite getFile_miss by apply (Hall 0%nat). reflexivity.
  - rewrite getFile_miss by apply (Hall 0%nat).
    unfold bind at 1. rewrite getFile0_S. unfold getFile0_over.
    destruct (decide (normalizePath p = "")) as [E|_]; [by destruct (Hall 0%nat)|].
    unfold bind at 1. unfold getFileID, getFileID_over. unfold bind at 1.
    rewrite IH; [reflexivity|].
    intros i. change (GoLib.Dir (normalizePath p)) with (parentOf p).
    rewrite <- Nat.iter_succ_r. apply Hall.
Qed.

Lemma cycle_positions p j :
  Nat.iter (S j) parentOf p = p ->
  forall i, exists i', (i' <= j)%nat /\ Nat.iter i parentOf p = Nat.iter i' parentOf p.
Proof.
  intros Hc. induction i as [|i (i' & Hi' & IH)].
  - exists 0%nat. split; [lia|reflexivity].
  - destruct (decide (i' = j)) as [->|Hne].
    + exists 0%nat. split; [lia|]. simpl. rewrite IH. exact Hc.
    + exists (S i'). split; [lia|]. simpl. by rewrite IH.
Qed.

(** A lookup that fails puts nothing under its own key. *)
Lemma getFile_failure_not_stored n p b st a e st' :
  misses st (cacheKeyFile +:+ p) ->
  getFile n p b st = Ok (a, Some e) st' ->
  cache st' !! (cacheKeyFile +:+ p) = cache st !! (cacheKeyFile +:+ p).
Proof.
  intros Hm E. destruct n as [|n].
  { unfold getFile in E. rewrite (getFile_miss _ _ _ _ Hm) in E. discriminate. }
  pose proof E as E'.
  unfold getFile in E. rewrite (getFile_miss _ _ _ _ Hm) in E.
  apply bind_Ok in E as ([a0 e0] & st0 & H0 & E). simpl in E.
  destruct e0 as [e0|]; [|discriminate]. injection E as <- <- <-.
  apply (getFile0_changes n (getFile_changes n) _ _ _ _ _ Hm H0).
  intros [|j] Hj Hd Hkey; [lia|]. apply key_inj in Hkey.
  assert (normalizePath p <> "") as Hp.
  { destruct (Hd 0%nat) as [_ Hn]; [lia|]. apply Hn. lia. }
  rewrite (descent_forever (S n) p b st) in E'; [discriminate|].
  intros i. destruct (cycle_positions p j (eq_sym Hkey) i) as (i' & Hi' & ->).
  destruct (Hd i') as [Hmi Hni]; [lia|]. split; [exact Hmi|]. apply Hni. lia.
Qed.

Lemma newCalls_app st st' l : calls st' = calls st ++ l -> newCalls st st' = l.
Proof. unfold newCalls. intros ->. by rewrite drop_app_length. Qed.

Lemma sound_Ok {A} (good : A -> Prop) (m : M R A) st r st' :
  sound st good m -> m st = Ok r st' -> resolving st st' /\ (cache_ok st -> good r).
Proof. intros Hm E. exact (wp_Ok _ _ _ _ _ _ (Hm st (resolving_refl st)) E). Qed.

Lemma sound_Panic {A} (good : A -> Prop) (m : M R A) st msg st' :
  sound st good m -> cache_ok st -> m st <> Panic msg st'.
Proof. intros Hm Hok E. exact (wp_Panic _ _ _ _ _ _ (Hm st (resolving_refl st)) E Hok). Qed.

(** On a cache of found files the resolver does not return without a
    remote call. *)
Lemma getFile0_calls n :
  forall p b st r st',
    cache_ok st -> getFile0 n p b st = Ok r st' ->
    exists l, calls st' = calls st ++ l /\ l <> [].
Proof.
  induction n as [|n IH]; intros p b st r st' Hok E; [discriminate|].
  rewrite getFile0_S in E. unfold getFile0_over in E.
  destruct (decide (normalizePath p = "")) as [_|Hp].
  - apply bind_Ok in E as (a & st1 & Hget & E).
    unfold Files_Get, remote in Hget.
    destruct (files_get "root" (client st)) as [x r'].
    injection Hget as <- <-. exists [CGet "root"].
    destruct x; injection E as <- <-; by split.
  - apply bind_Ok in E as ([id e] & st1 & Hid & E).
    destruct (sound_Ok _ _ _ _ _ (getFileID_sound st n _ true) Hid)
      as ((_ & (l1 & Hl1 & _) & _) & _).
    apply getFileID_Ok in Hid as ([a e'] & Hg & Hr).
    simpl in E. destruct e as [e|].
    + injection E as <- <-.
      destruct e' as [e'|]; [|by destruct Hr as (? & ? & _ & _ & [=])].
      destruct (getFile_cases (getFile0 n) (GoLib.Dir (normalizePath p)) true st)
        as [(v & Hv & ex & Hc)|Hm].
      * unfold getFile in Hg. rewrite Hv in Hg. injection Hg as _ He _.
        destruct (Hok _ _ _ Hc) as [Hnone _]. congruence.
      * unfold getFile in Hg. rewrite (getFile_miss _ _ _ _ Hm) in Hg.
        apply bind_Ok in Hg as ([a0 e0] & st0 & H0 & Hg). simpl in Hg.
        destruct e0 as [e0|]; [|discriminate]. injection Hg as _ _ <-.
        exact (IH _ _ _ _ _ Hok H0).
    + apply bind_Ok in E as (l & st2 & Hl & E).
      unfold Files_List, remote in Hl.
      destruct (files_list _ _ (client st1)) as [x r'].
      injection Hl as <- <-.
      exists (l1 ++ [CList (childQuery id (GoLib.Base (normalizePath p)) b) listFields]).
      split; [|by destruct l1].
      destruct x; injection E as <- <-; simpl; by rewrite Hl1, app_assoc.
Qed.

Lemma getFile_miss_calls n p b st r st' :
  cache_ok st -> misses st (cacheKeyFile +:+ p) ->
  getFile n p b st = Ok r st' -> newCalls st st' <> [].
Proof.
  intros Hok Hm E. unfold getFile in E. rewrite (getFile_miss _ _ _ _ Hm) in E.
  apply bind_Ok in E as ([a e] & st0 & H0 & E).
  destruct (getFile0_calls _ _ _ _ _ _ Hok H0) as (l & Hl & Hne).
  assert (calls st' = calls st0) as Hc.
  { simpl in E. destruct e; injection E as <- <-; reflexivity. }
  rewrite (newCalls_app st st' l); [exact Hne|]. by rewrite Hc.
Qed.

(** C5. A lookup that misses the cache and fails stores nothing under its
    key, so that every later lookup of the key reaches the remote store
    again; a lookup that misses and succeeds stores its result for one
    minute, and until then every lookup of the key returns that result and
    leaves the state as it is, whatever the depth allowed to the resolver:
    the resolver is not run and no remote call is made. *)
Theorem getFile_caches_success_only n p b st r st' :
  reachable st ->
  misses st (cacheKeyFile +:+ p) ->
  getFile n p b st = Ok r st' ->
  match snd r with
  | Some e =>
      misses st' (cacheKeyFile +:+ p) /\
      (forall m b' r2 st2, getFile m p b' st' = Ok r2 st2 -> newCalls st' st2 <> [])
  | None =>
      cache st' !! (cacheKeyFile +:+ p) = Some (mkLookup (fst r) None, now st' + GoLib.Minute) /\
      (forall d m b', 0 <= d <= GoLib.Minute ->
         getFile m p b' (tick d st') = Ok r (tick d st'))
  end.
Proof.
  intros Hreach Hm E.
  pose proof (reachable_cache_ok _ Hreach) as Hok.
  destruct (sound_Ok _ _ _ _ _ (getFile_sound st n p b) E) as ((Hnow & _ & Hok') & _).
  destruct r as [a [e|]]; simpl.
  - assert (misses st' (cacheKeyFile +:+ p)) as Hm'.
    { pose proof (getFile_failure_not_stored _ _ _ _ _ _ _ Hm E) as Hc.
      unfold misses, cache_Get in *. rewrite Hc, Hnow.
      destruct (cache st !! (cacheKeyFile +:+ p)) as [[v x]|]; [|reflexivity].
      destruct (bool_decide (now st <= x)); [discriminate|reflexivity]. }
    split; [exact Hm'|].
    intros m b' r2 st2. by apply getFile_miss_calls; [apply Hok'|].
  - unfold getFile in E. rewrite (getFile_miss _ _ _ _ Hm) in E.
    apply bind_Ok in E as ([a0 e0] & st0 & H0 & E). simpl in E.
    destruct e0 as [e0|]; [discriminate|]. injection E as <- <-. simpl.
    split; [by rewrite lookup_insert_eq|].
    intros d m b' Hd. unfold getFile.
    apply (getFile_hit _ _ _ _ (mkLookup a0 None) (now st0 + GoLib.Minute)).
    + simpl. by rewrite lookup_insert_eq.
    + simpl. lia.
Qed.

(** C10. In every reachable state, a lookup that returns no error returns
    a [fileAndPath] with a file; [getFile] and [getFileID] do not panic, so
    that [getFileID] returns the identifier of that file; and [Stat]
    answers [ErrNotExist] only when the lookup itself returned that error. *)
Theorem getFile_nil_error_has_file n p b st :
  reachable st ->
  (forall r st', getFile n p b st = Ok r st' -> snd r = None ->
     exists a x, fst r = Some a /\ file a = Some x) /\
  (forall msg st', getFile n p b st <> Panic msg st') /\
  (forall msg st', getFileID n p b st <> Panic msg st') /\
  (forall a st', getFile n p b st = Ok (Some a, None) st' ->
     exists x, file a = Some x /\ getFileID n p b st = Ok (Id x, None) st') /\
  (forall st', Stat n p st = Ok (None, Some ErrNotExist) st' ->
     exists a, getFile n p false st = Ok (a, Some ErrNotExist) st').
Proof.
  intros Hreach. pose proof (reachable_cache_ok _ Hreach) as Hok.
  repeat split.
  - intros r st' E. destruct (sound_Ok _ _ _ _ _ (getFile_sound st n p b) E) as [_ Hr].
    by apply Hr.
  - intros msg st'. by apply (sound_Panic _ _ _ _ _ (getFile_sound st n p b)).
  - intros msg st'. by apply (sound_Panic _ _ _ _ _ (getFileID_sound st n p b)).
  - intros a st' E.
    destruct (sound_Ok _ _ _ _ _ (getFile_sound st n p b) E) as [_ Hr].
    destruct (Hr Hok eq_refl) as (a' & x & [= <-] & Hx). exists x. split; [exact Hx|].
    unfold getFileID, getFileID_over. rewrite (bind_run _ _ _ _ _ E). simpl.
    cbv [bind deref ret]. by rewrite Hx.
  - intros st' E. unfold Stat in E.
    apply bind_Ok in E as ([a e] & st1 & Hg & E). simpl in E.
    destruct (sound_Ok _ _ _ _ _ (getFile_sound st n p false) Hg) as [_ Hr].
    destruct e as [e|].
    + injection E as <- <-. eauto.
    + destruct (Hr Hok eq_refl) as (a' & x & Ha & Hx). simpl in Ha. subst a.
      apply bind_Ok in E as (fi & st2 & _ & E). discriminate.
Qed.

End Caching.

(** ** Mutations: write handles, [Mkdir] and [RemoveAll] *)

Section Mutations.

Context {R : Type} {DS : DriveService R} {TL : TimeLib}.

Implicit Types (st : fileSystem R) (p key : string) (n : nat).

Lemma queries_filter (l : list Call) :
  Forall (fun c => is_query c = true) l -> List.filter is_mutation l = [].
Proof.
  induction 1 as [|c l Hc _ IH]; [reflexivity|]. simpl.
  unfold is_query in Hc. destruct (is_mutation c); [discriminate|exact IH].
Qed.

Lemma queriesOnly_no_mutation st st' :
  queriesOnly st st' -> List.filter is_mutation (newCalls st st') = [].
Proof.
  intros (l & Hl & Hq). rewrite (newCalls_app _ _ _ Hl). by apply queries_filter.
Qed.

Lemma getFileID_queries n p b st r st' :
  getFileID n p b st = Ok r st' -> queriesOnly st st'.
Proof.
  intros E. destruct (sound_Ok _ _ _ _ _ (getFileID_sound st n p b) E) as ((_ & Hq & _) & _).
  exact Hq.
Qed.

Lemma mutations_app st st1 st2 :
  queriesOnly st st1 -> (exists l, calls st2 = calls st1 ++ l) ->
  List.filter is_mutation (newCalls st st2) = List.filter is_mutation (newCalls st1 st2).
Proof.
  intros (l1 & Hl1 & Hq) (l & Hl).
  rewrite (newCalls_app st1 st2 l Hl).
  rewrite (newCalls_app st st2 (l1 ++ l)) by (by rewrite Hl, Hl1, app_assoc).
  rewrite List.filter_app. by rewrite (queries_filter l1 Hq).
Qed.






(** What a successful [RemoveAll] deletes from the cache: the lookups of
    the path and of its parent path, and nothing else. *)
Lemma RemoveAll_success n name st st' :
  RemoveAll n name st = Ok None st' ->
  exists id st1 r',
    getFileID n (normalizePath name) false st = Ok (id, None) st1 /\
    calls st' = calls st1 ++ [CDelete id] /\
    cache st' = delete (cacheKeyFile +:+ GoLib.Dir (normalizePath name))
                  (delete (cacheKeyFile +:+ normalizePath name) (cache st1)) /\
    client st' = r' /\ now st' = now st1.
Proof.
  unfold RemoveAll. intros E.
  apply bind_Ok in E as ([id e] & st1 & Hid & E). simpl in E.
  destruct e as [e|]; [discriminate|].
  apply bind_Ok in E as (d & st2 & Hd & E).
  unfold Files_Delete, remote in Hd.
  destruct (files_delete id (client st1)) as [x r'].
  injection Hd as <- <-. destruct x; [discriminate|]. injection E as <-.
  exists id, st1, r'. repeat split; eauto.
Qed.

(** The listing of a folder is cached under the identifier of the folder:
    unless that identifier is spelled like one of the two paths, a
    successful [RemoveAll] leaves the entry where it was. *)
Lemma RemoveAll_keeps_listing n name st st' parentID :
  RemoveAll n name st = Ok None st' ->
  parentID <> normalizePath name ->
  parentID <> GoLib.Dir (normalizePath name) ->
  exists st1 r,
    getFileID n (normalizePath name) false st = Ok r st1 /\
    cache st' !! (cacheKeyDir +:+ parentID) = cache st1 !! (cacheKeyDir +:+ parentID).
Proof.
  intros E H1 H2.
  apply RemoveAll_success in E as (id & st1 & r' & Hid & _ & Hc & _).
  exists st1, (id, None). split; [exact Hid|]. rewrite Hc.
  rewrite !lookup_delete_ne; [reflexivity| |];
    intros K; apply key_inj in K; congruence.
Qed.


End Mutations.

(** ** Read handles *)

Section ReadHandle.

Context {R : Type} {DS : DriveService R} {TL : TimeLib}.

Implicit Types (st : fileSystem R) (p key : string) (n : nat).

Lemma childKey_inj name (x y : File) : childKey name x = childKey name y <-> Name x = Name y.
Proof.
  unfold childKey. split; [|by intros ->].
  intros E. apply String.app_inj, String.app_inj in E.
  by apply (String.app_inj "/") in E.
Qed.

Lemma warm_cons name t c (y : File) (l : list File) :
  warm name t c (y :: l) =
  warm name t (<[childKey name y := (childEntry name y, t + GoLib.Minute)]> c) l.
Proof. reflexivity. Qed.

Lemma warm_elsewhere name t (l : list File) : forall c key,
  (forall x, In x l -> childKey name x <> key) -> warm name t c l !! key = c !! key.
Proof.
  induction l as [|y l IH]; intros c key Hk; [reflexivity|].
  rewrite warm_cons, IH by (intros x Hx; apply Hk; by right).
  apply lookup_insert_ne, Hk. by left.
Qed.

(** Every stored child is found under its key, where the last child of
    that name was stored. *)
Lemma warm_child name t (l : list File) : forall c x,
  In x l ->
  exists x', In x' l /\ Name x' = Name x /\
    warm name t c l !! childKey name x = Some (childEntry name x', t + GoLib.Minute).
Proof.
  induction l as [|y l IH]; intros c x Hx; [destruct Hx|]. rewrite warm_cons.
  destruct (existsb (fun z => bool_decide (Name z = Name x)) l) eqn:E.
  - apply existsb_exists in E as (z & Hz & Hn). apply bool_decide_eq_true in Hn.
    destruct (IH (<[childKey name y := (childEntry name y, t + GoLib.Minute)]> c) z Hz)
      as (x' & Hx' & Hn' & Hl).
    exists x'. split; [by right|]. split; [congruence|].
    by rewrite <- (proj2 (childKey_inj name z x) Hn).
  - assert (forall z, In z l -> childKey name z <> childKey name x) as Hno.
    { intros z Hz K. apply childKey_inj in K.
      assert (existsb (fun z => bool_decide (Name z = Name x)) l = true) as T; [|congruence].
      apply existsb_exists. exists z. split; [exact Hz|]. by apply bool_decide_eq_true. }
    destruct Hx as [->|Hx]; [|by destruct (Hno x Hx)].
    exists x. split; [by left|]. split; [reflexivity|].
    rewrite (warm_elsewhere name t l _ _ Hno). apply lookup_insert_eq.
Qed.

Lemma readdirRange_run name (l : list File) : forall infos (r : R) cs c t,
  Forall (fun x => snd (getModTime x) = None) (visible l) ->
  readdirRange name l infos (mkFS r cs c t) =
  Ok (infos ++ List.map infoOf (visible l)) (mkFS r cs (warm name t c (visible l)) t).
Proof.
  induction l as [|x l IH]; intros infos r cs c t Hparse; simpl.
  - by rewrite app_nil_r.
  - unfold visible in *. simpl in *. unfold ignoreFile.
    destruct (Trashed x); simpl in *; [by apply IH|].
    inversion Hparse as [|? ? Hx Hl]; subst.
    unfold newFileInfo, bind at 1. simpl. unfold bind at 1. simpl.
    destruct (getModTime x) as [mt e] eqn:Hmt. simpl in Hx. subst e.
    simpl. unfold bind at 1. simpl.
    rewrite IH by exact Hl. rewrite <- app_assoc. simpl.
    unfold infoOf at 2. by rewrite Hmt.
Qed.

(** C8. A [Readdir] that finds no listing in the cache lists the children
    of the folder once, returns the information of those that are not
    trashed, in order, stores the listing under the identifier of the
    folder for five seconds, and then stores a lookup for one minute under
    the path of every child that is not trashed.  Each such child is found
    under its path afterwards (as the last child of that name), the listing
    is found under the identifier unless a child path is spelled like it,
    and a folder without a visible child gives the empty list and no
    error. *)
Theorem Readdir_lists_and_warms f count st x fs r' :
  r_file f = Some x ->
  misses st (cacheKeyDir +:+ Id x) ->
  files_list (listQuery (Id x)) listFields (client st) = (inr fs, r') ->
  Forall (fun c => snd (getModTime c) = None) (visible fs) ->
  let listing := mkLookup (Some (mkFileAndPath (Some x) (Id x) fs)) None in
  let listed := <[cacheKeyDir +:+ Id x := (listing, now st + 5 * GoLib.Second)]> (cache st) in
  let cache' := warm (r_name f) (now st) listed (visible fs) in
  let trace := calls st ++ [CList (listQuery (Id x)) listFields] in
  Readdir f count st =
    Ok (Some (List.map infoOf (visible fs)), None) (mkFS r' trace cache' (now st)) /\
  (forall c, In c (visible fs) ->
     exists c', In c' (visible fs) /\ Name c' = Name c /\
       cache' !! childKey (r_name f) c = Some (childEntry (r_name f) c', now st + GoLib.Minute)) /\
  ((forall c, In c (visible fs) -> Id x <> r_name f +:+ "/" +:+ Name c) ->
     cache' !! (cacheKeyDir +:+ Id x) = Some (listing, now st + 5 * GoLib.Second)) /\
  (visible fs = [] ->
     Readdir f count st = Ok (Some [], None) (mkFS r' trace listed (now st))).
Proof.
  intros Hx Hm Hl Hparse listing listed cache' trace.
  assert (Readdir f count st =
    Ok (Some (List.map infoOf (visible fs)), None) (mkFS r' trace cache' (now st))) as Hrun.
  { unfold Readdir. rewrite Hx. unfold bind at 1. simpl.
    unfold bind at 1. rewrite Hm.
    unfold bind at 1, Files_List, remote. rewrite Hl.
    unfold bind at 1. simpl. unfold bind at 1. simpl. unfold bind at 1.
    rewrite readdirRange_run by exact Hparse. reflexivity. }
  split; [exact Hrun|]. split; [|split].
  - intros c Hc. by apply warm_child.
  - intros Hid. unfold cache'. rewrite warm_elsewhere.
    + apply lookup_insert_eq.
    + intros c Hc K. unfold childKey, cacheKeyDir, cacheKeyFile in K.
      apply String.app_inj in K. by destruct (Hid c Hc).
  - intros Hnone. rewrite Hrun. unfold cache'. rewrite Hnone. reflexivity.
Qed.

(** C9. A read whose body gives nothing within the stall timeout of
    fifteen seconds returns, after those fifteen seconds, no byte and the
    timeout error, which is not [EOF]; the position of the handle is as it
    was. *)
Theorem Read_stall_times_out f k st s :
  readsFrom f st s ->
  stalls stallTimeout s ->
  exists f' st',
    Read f k st = Ok (f', ([], Some ErrTimeout)) st' /\
    ErrTimeout <> EOF /\
    now st' = now st + 15 * GoLib.Second /\
    r_pos f' = r_pos f.
Proof.
  intros Hfrom Hstall.
  assert (forall tr, tr_timeout tr = stallTimeout ->
            timeoutReader_Read tr k s = (([], Some ErrTimeout), s, stallTimeout)) as Hread.
  { intros tr Htr. unfold timeoutReader_Read. rewrite Htr.
    destruct s as [|[w bs|w e|] s']; simpl in Hstall; try contradiction; try reflexivity;
      by rewrite bool_decide_eq_true_2. }
  destruct Hfrom as [[Hr Hb]|(Hr & x & r' & Hx & Hd)].
  - unfold Read, initContentReader. rewrite Hr.
    unfold bind at 1. simpl. rewrite Hr, Hb.
    unfold bind at 1. simpl. unfold bind at 1. simpl.
    rewrite Hread by reflexivity. unfold bind at 1. simpl.
    eexists _, _. split; [reflexivity|]. split; [discriminate|]. split; [|reflexivity].
    simpl. unfold stallTimeout. lia.
  - unfold Read, initContentReader. rewrite Hr, Hx.
    unfold bind at 1. unfold bind at 1. simpl.
    unfold bind at 1, Files_Download, remote. rewrite Hd. simpl.
    unfold bind at 1. simpl. unfold bind at 1. simpl.
    rewrite Hread by reflexivity. unfold bind at 1. simpl.
    eexists _, _. split; [reflexivity|]. split; [discriminate|]. split; [|reflexivity].
    simpl. unfold stallTimeout. lia.
Qed.

(** [Seek] to the start sets the position to zero and touches neither the
    reader nor the body of the handle. *)
Lemma Seek_start f offset st :
  exists f', Seek f offset 0 st = Ok (f', (0, None)) st /\
    r_pos f' = 0 /\
    r_contentReader f' = r_contentReader f /\ r_body f' = r_body f.
Proof. eexists. split; [reflexivity|]. by repeat split. Qed.

(** [Seek] to the end answers the size of the file and makes no call. *)
Lemma Seek_end f offset st x :
  r_file f = Some x ->
  exists f', Seek f offset 2 st = Ok (f', (Size x, None)) st /\
    r_pos f' = Size x /\
    r_contentReader f' = r_contentReader f /\ r_body f' = r_body f.
Proof.
  intros Hx. unfold Seek. simpl. rewrite Hx. eexists. split; [reflexivity|]. by repeat split.
Qed.

End ReadHandle.

(** ** The properties on the stores in memory *)

Module Scenarios.

Import MemDrive.

Lemma fresh_reachable : reachable fresh.
Proof. exists scenario, 100. apply rtc_refl. Qed.

(** C2: on the store of the scenarios the resolution of [/], which
    normalizes to the empty path, succeeds only after a remote call, the
    fetch of [root]; on the same store out of service it fails with the
    error of that fetch. *)
Lemma root_resolution_calls_the_store :
  normalizePath "/" = "" /\
  valueOf (getFile0 1 "/" false fresh) = Some (Some (mkFileAndPath (Some rootFile) "/" []), None) /\
  newCalls fresh (stateOf (getFile0 1 "/" false fresh)) = [CGet "root"] /\
  getFile0 1 "/" false (NewFS (down scenario) 100) =
    Ok (None, Some unavailable) (mkFS (down scenario) [CGet "root"] ∅ 100).
Proof. repeat split; vm_compute; reflexivity. Qed.

Lemma getFile0_root_witness :
  normalizePath "/" = "" /\
  getFile0 1 "/" false fresh =
    Ok (Some (mkFileAndPath (Some rootFile) "/" []), None)
       (mkFS scenario [CGet "root"] ∅ 100).
Proof.
  split; [reflexivity|]. exact (getFile0_root 0 "/" false fresh eq_refl).
Defined.


Lemma getFile_caches_success_only_witness :
  let st' := stateOf (getFile 5 "/docs/a.txt" false fresh) in
  let r := (Some (mkFileAndPath (Some aTxt) "/docs/a.txt" []), None) in
  cache st' !! (cacheKeyFile +:+ "/docs/a.txt") =
    Some (mkLookup (fst r) None, now st' + GoLib.Minute) /\
  (forall d m b', 0 <= d <= GoLib.Minute ->
     getFile m "/docs/a.txt" b' (tick d st') = Ok r (tick d st')).
Proof.
  assert (misses fresh (cacheKeyFile +:+ "/docs/a.txt")) as Hm by reflexivity.
  assert (getFile 5 "/docs/a.txt" false fresh =
          Ok (Some (mkFileAndPath (Some aTxt) "/docs/a.txt" []), None)
             (stateOf (getFile 5 "/docs/a.txt" false fresh))) as Hrun
    by (vm_compute; reflexivity).
  exact (getFile_caches_success_only 5 "/docs/a.txt" false fresh _ _
           fresh_reachable Hm Hrun).
Defined.

Lemma getFile_nil_error_has_file_witness :
  reachable fresh /\
  exists a x,
    valueOf (getFile 5 "/docs/a.txt" false fresh) = Some (Some a, None) /\ file a = Some x.
Proof.
  split; [exact fresh_reachable|].
  assert (getFile 5 "/docs/a.txt" false fresh =
          Ok (Some (mkFileAndPath (Some aTxt) "/docs/a.txt" []), None)
             (stateOf (getFile 5 "/docs/a.txt" false fresh))) as Hrun
    by (vm_compute; reflexivity).
  destruct (proj1 (getFile_nil_error_has_file 5 "/docs/a.txt" false fresh fresh_reachable)
              _ _ Hrun eq_refl) as (a & x & Ha & Hx).
  exists a, x. split; [|exact Hx]. rewrite Hrun. simpl in *. by rewrite Ha.
Defined.



Lemma Readdir_lists_and_warms_witness :
  let f := handleOn docs "/docs" in
  let listing := mkLookup (Some (mkFileAndPath (Some docs) "D" [aTxt])) None in
  let listed := <[cacheKeyDir +:+ "D" := (listing, 100 + 5 * GoLib.Second)]> ∅ in
  let cache' := warm "/docs" 100 listed [aTxt] in
  Readdir f 0 fresh =
    Ok (Some [mkFileInfo "a.txt" false 1700000000 10], None)
       (mkFS scenario [CList (listQuery "D") listFields] cache' 100) /\
  cache' !! (cacheKeyDir +:+ "D") = Some (listing, 100 + 5 * GoLib.Second).
Proof.
  assert (r_file (handleOn docs "/docs") = Some docs) as Hx by reflexivity.
  assert (misses fresh (cacheKeyDir +:+ Id docs)) as Hm by reflexivity.
  assert (files_list (listQuery (Id docs)) listFields (client fresh) = (inr [aTxt], scenario))
    as Hl by reflexivity.
  assert (Forall (fun c => snd (getModTime c) = None) (visible [aTxt])) as Hparse
    by (repeat constructor).
  destruct (Readdir_lists_and_warms (handleOn docs "/docs") 0 fresh docs [aTxt] scenario
              Hx Hm Hl Hparse) as (Hrun & _ & Hdir & _).
  split; [exact Hrun|]. apply Hdir.
  intros c [<-|[]]. discriminate.
Defined.

Lemma Read_stall_times_out_witness :
  let f := handleOn slowFile "/slow.bin" in
  let st := NewFS stalled 100 in
  let first := Read f 3 st in
  valueOf first = Some (default f (fst <$> valueOf first), (list_byte_of_string "abc", None)) /\
  exists f' st',
    Read (default f (fst <$> valueOf first)) 3 (stateOf first) =
      Ok (f', ([], Some ErrTimeout)) st' /\
    ErrTimeout <> EOF /\
    now st' = now (stateOf first) + 15 * GoLib.Second /\
    r_pos f' = 3.
Proof.
  split; [vm_compute; reflexivity|].
  assert (readsFrom (default (handleOn slowFile "/slow.bin")
                       (fst <$> valueOf (Read (handleOn slowFile "/slow.bin") 3 (NewFS stalled 100))))
            (stateOf (Read (handleOn slowFile "/slow.bin") 3 (NewFS stalled 100))) [Hang])
    as Hfrom by (left; split; reflexivity).
  exact (Read_stall_times_out _ 3 _ [Hang] Hfrom I).
Defined.

(** C1: [/docs] is listed, [/docs/a.txt] is removed, and [/docs] is listed
    again within five seconds.  The removal succeeds and the file is gone
    from the store, but the listing cached under the identifier [D] of the
    folder is still there: the second listing makes no remote call, shows
    the removed file, and stores its lookup again. *)
Theorem RemoveAll_leaves_parent_listing :
  valueOf (OpenFile 5 "/docs" 0 0 fresh) =
    Some (Some (ReadonlyFile (handleOn docs "/docs")), None) /\
  valueOf (Readdir (handleOn docs "/docs") 0 opened) =
    Some (Some [mkFileInfo "a.txt" false 1700000000 10], None) /\
  cached listed (cacheKeyFile +:+ "/docs") =
    Some (mkLookup (Some (mkFileAndPath (Some docs) "/docs" [])) None) /\
  valueOf (RemoveAll 5 "/docs/a.txt" listed) = Some None /\
  newCalls listed removed = [CDelete "F"] /\
  findById (client removed) "F" = None /\
  cached removed (cacheKeyFile +:+ "/docs/a.txt") = None /\
  cached removed (cacheKeyFile +:+ "/docs") = None /\
  cached removed (cacheKeyDir +:+ "D") =
    Some (mkLookup (Some (mkFileAndPath (Some docs) "D" [aTxt])) None) /\
  valueOf (Readdir (handleOn docs "/docs") 0 removed) =
    Some (Some [mkFileInfo "a.txt" false 1700000000 10], None) /\
  newCalls removed relisted = [] /\
  cached relisted (cacheKeyFile +:+ "/docs/a.txt") =
    Some (mkLookup (Some (mkFileAndPath (Some aTxt) "/docs/a.txt" [])) None).
Proof. repeat split; vm_compute; reflexivity. Qed.

(** C3: three bytes of [/docs/a.txt] are read, the handle seeks to the
    start, and three bytes are read again.  The seek answers position zero
    but keeps the reader and the body where the first read left them, so
    the second read returns the fourth to sixth bytes of the file, not the
    first three, while the handle counts them as the first three. *)
Theorem Seek_start_keeps_the_open_stream :
  valueOf (OpenFile 5 "/docs/a.txt" 0 0 fresh) =
    Some (Some (ReadonlyFile (handleOn aTxt "/docs/a.txt")), None) /\
  valueOf readThree = Some (afterRead, (list_byte_of_string "012", None)) /\
  Seek afterRead 0 0 (stateOf readThree) = Ok (rewound, (0, None)) (stateOf readThree) /\
  r_pos rewound = 0 /\
  r_contentReader rewound = r_contentReader afterRead /\
  r_body rewound = Some [Data 0 (list_byte_of_string "3456789")] /\
  (exists f', valueOf (Read rewound 3 (stateOf readThree)) =
     Some (f', (list_byte_of_string "345", None)) /\ r_pos f' = 3) /\
  newCalls (stateOf readThree) (stateOf (Read rewound 3 (stateOf readThree))) = [].
Proof.
  repeat split; try (vm_compute; reflexivity).
  eexists. split; vm_compute; reflexivity.
Qed.

End Scenarios.

(** * Further properties *)

(** ** Paths *)

Section Paths.

Import GoLib.

Lemma append_cons a (s t : string) : String a s +:+ t = String a (s +:+ t).
Proof. reflexivity. Qed.

Lemma length_append (s t : string) :
  String.length (s +:+ t) = (String.length s + String.length t)%nat.
Proof.
  induction s as [|a s IH]; [reflexivity|].
  rewrite append_cons. simpl. by rewrite IH.
Qed.

Lemma trimRightSlash_length p :
  (String.length (trimRightSlash p) <= String.length p)%nat.
Proof.
  induction p as [|c r IH]; simpl; [lia|].
  destruct (trimRightSlash r); [destruct (Ascii.eqb c slash)|]; simpl in *; lia.
Qed.

Lemma trimRightSlash_suffix p : hasSuffixSlash (trimRightSlash p) = false.
Proof.
  induction p as [|c r IH]; simpl; [reflexivity|].
  destruct (trimRightSlash r) as [|a t] eqn:E.
  - destruct (Ascii.eqb c slash) eqn:C; simpl; [reflexivity|exact C].
  - exact IH.
Qed.

Lemma trimRightSlash_fixed p : hasSuffixSlash p = false -> trimRightSlash p = p.
Proof.
  induction p as [|c r IH]; simpl; [reflexivity|].
  destruct r as [|a t].
  - intros ->. reflexivity.
  - intros Hs. rewrite (IH Hs). reflexivity.
Qed.

Lemma trimRightSlash_empty p : trimRightSlash p = "" <-> onlySlashes p = true.
Proof.
  induction p as [|c r IH]; simpl; [by split|].
  destruct (trimRightSlash r) as [|a t].
  - destruct (Ascii.eqb c slash); simpl.
    + rewrite <- IH. by split.
    + by split.
  - split; [discriminate|]. intros Hs. apply andb_true_iff in Hs as [_ Hs].
    apply IH in Hs. discriminate.
Qed.

Lemma trimRightSlash_rooted p :
  is_rooted p = true -> trimRightSlash p = "" \/ is_rooted (trimRightSlash p) = true.
Proof.
  destruct p as [|c r]; simpl; [discriminate|]. intros Hc.
  destruct (trimRightSlash r); [rewrite Hc; by left|by right].
Qed.

Lemma trimRightSlash_relative p :
  p <> "" -> is_rooted p = false ->
  trimRightSlash p <> "" /\ is_rooted (trimRightSlash p) = false.
Proof.
  destruct p as [|c r]; simpl; [congruence|]. intros _ Hc.
  destruct (trimRightSlash r); [rewrite Hc|]; by split.
Qed.

Lemma dir_part_shorter p :
  p <> "" -> hasSuffixSlash p = false ->
  (String.length (dir_part p) < String.length p)%nat.
Proof.
  induction p as [|c r IH]; [congruence|]. intros _ Hs.
  destruct r as [|a t].
  - simpl in *. rewrite Hs. simpl. lia.
  - assert (String.length (dir_part (String a t)) < String.length (String a t))%nat as IH'
      by (apply IH; [discriminate|exact Hs]).
    change (dir_part (String c (String a t))) with
      (match dir_part (String a t) with
       | EmptyString => if Ascii.eqb c slash then String c EmptyString else EmptyString
       | d => String c d
       end).
    destruct (dir_part (String a t)); [destruct (Ascii.eqb c slash)|]; simpl in *; lia.
Qed.

Lemma dir_part_rooted p : is_rooted p = true -> is_rooted (dir_part p) = true.
Proof.
  destruct p as [|c r]; simpl; [discriminate|]. intros Hc.
  destruct (dir_part r); [rewrite Hc|]; exact Hc.
Qed.

Lemma dir_part_relative p : is_rooted p = false -> is_rooted (dir_part p) = false.
Proof.
  destruct p as [|c r]; simpl; [reflexivity|]. intros Hc.
  destruct (dir_part r); [rewrite Hc|]; simpl; [reflexivity|exact Hc].
Qed.

Lemma components_cons p : exists x xs, components p = x :: xs.
Proof.
  induction p as [|c r (x & xs & IH)]; simpl; [eauto|].
  destruct (Ascii.eqb c slash); [eauto|]. rewrite IH. eauto.
Qed.

Lemma components_weight p : weight (components p) = S (String.length p).
Proof.
  induction p as [|c r IH]; [reflexivity|]. simpl.
  destruct (Ascii.eqb c slash).
  - simpl. by rewrite IH.
  - destruct (components r) as [|x xs]; simpl in *; lia.
Qed.

Lemma components_relative p : Forall (fun c => is_rooted c = false) (components p).
Proof.
  induction p as [|c r IH]; simpl; [by repeat constructor|].
  destruct (Ascii.eqb c slash) eqn:C.
  - by constructor.
  - destruct (components r) as [|x xs]; [by repeat constructor; simpl|].
    inversion IH; subst. by constructor.
Qed.

(** One step of [path.Clean] adds at most the component it reads. *)
Lemma clean_step_weight rooted stack c :
  (weight (clean_step rooted stack c) <= weight stack + S (String.length c))%nat.
Proof.
  unfold clean_step. repeat case_decide; subst; simpl; try lia.
  destruct stack as [|top rest]; [destruct rooted; simpl; lia|].
  case_decide; simpl; lia.
Qed.

Lemma clean_steps_weight rooted (l : list string) : forall stack,
  (weight (fold_left (clean_step rooted) l stack) <= weight stack + weight l)%nat.
Proof.
  induction l as [|c l IH]; intros stack; simpl; [lia|].
  pose proof (IH (clean_step rooted stack c)).
  pose proof (clean_step_weight rooted stack c). lia.
Qed.

(** The components [path.Clean] keeps are not empty and hold no slash at
    their head. *)
Lemma clean_step_kept rooted stack c :
  is_rooted c = false ->
  Forall (fun x => x <> "" /\ is_rooted x = false) stack ->
  Forall (fun x => x <> "" /\ is_rooted x = false) (clean_step rooted stack c).
Proof.
  intros Hc Hs. unfold clean_step. repeat case_decide; subst; auto.
  destruct stack as [|top rest]; [destruct rooted; by repeat constructor|].
  case_decide; [by constructor|]. by inversion Hs.
Qed.

Lemma clean_steps_kept rooted (l : list string) : forall stack,
  Forall (fun c => is_rooted c = false) l ->
  Forall (fun x => x <> "" /\ is_rooted x = false) stack ->
  Forall (fun x => x <> "" /\ is_rooted x = false) (fold_left (clean_step rooted) l stack).
Proof.
  induction l as [|c l IH]; intros stack Hl Hs; simpl; [exact Hs|].
  inversion Hl; subst. apply IH; [assumption|]. by apply clean_step_kept.
Qed.

Lemma weight_app (l1 l2 : list string) : weight (l1 ++ l2) = (weight l1 + weight l2)%nat.
Proof. induction l1 as [|c l IH]; simpl; [reflexivity|]. rewrite IH. lia. Qed.

Lemma weight_rev (l : list string) : weight (rev l) = weight l.
Proof.
  induction l as [|c l IH]; [reflexivity|]. simpl. rewrite weight_app, IH. simpl. lia.
Qed.

Lemma join_slash_length (l : list string) :
  (String.length (join_slash l) <= weight l)%nat /\
  (l <> [] -> S (String.length (join_slash l)) = weight l).
Proof.
  induction l as [|x l [IH1 IH2]]; [split; [simpl; lia|congruence]|].
  destruct l as [|y l].
  - simpl. split; [lia|intros _; lia].
  - change (join_slash (x :: y :: l)) with (x +:+ "/" +:+ join_slash (y :: l)).
    rewrite !length_append. specialize (IH2 ltac:(discriminate)).
    simpl in *. split; [lia|intros _; lia].
Qed.

Lemma join_slash_relative (l : list string) :
  Forall (fun x => x <> "" /\ is_rooted x = false) l ->
  l <> [] -> join_slash l <> "" /\ is_rooted (join_slash l) = false.
Proof.
  destruct l as [|x l]; [congruence|]. intros Hl _.
  inversion Hl as [|? ? [Hx Hr] _]; subst.
  destruct x as [|a x]; [congruence|].
  destruct l as [|y l]; [by split|].
  change (join_slash (String a x :: y :: l)) with
    (String a (x +:+ "/" +:+ join_slash (y :: l))).
  by split.
Qed.

Lemma Clean_rooted d : is_rooted d = true -> is_rooted (Clean d) = true.
Proof.
  intros Hd. unfold Clean. case_decide; [by subst|]. rewrite Hd. reflexivity.
Qed.

(** [path.Clean] does not lengthen a rooted path. *)
Lemma Clean_length d :
  is_rooted d = true -> (String.length (Clean d) <= String.length d)%nat.
Proof.
  intros Hd. unfold Clean. case_decide; [by subst|]. rewrite Hd.
  set (kept := rev (fold_left (clean_step true) (components d) [])).
  rewrite append_cons. simpl.
  assert (weight kept <= String.length d)%nat as Hw.
  { unfold kept. rewrite weight_rev.
    destruct d as [|c r]; [discriminate|]. simpl in Hd.
    change (components (String c r)) with
      (if Ascii.eqb c slash then EmptyString :: components r
       else match components r with
            | [] => [String c EmptyString]
            | x :: xs => String c x :: xs
            end).
    rewrite Hd.
    change (fold_left (clean_step true) (EmptyString :: components r) [])
      with (fold_left (clean_step true) (components r) []).
    pose proof (clean_steps_weight true (components r) []) as W.
    rewrite components_weight in W. simpl in W. simpl. lia. }
  destruct (join_slash_length kept) as [J1 J2].
  destruct kept as [|x l]; [simpl; destruct d; [discriminate|simpl; lia]|].
  specialize (J2 ltac:(discriminate)).
  change ("" +:+ join_slash (x :: l)) with (join_slash (x :: l)). lia.
Qed.

(** [path.Clean] of a relative path is a relative path, and not empty. *)
Lemma Clean_relative d :
  is_rooted d = false -> Clean d <> "" /\ is_rooted (Clean d) = false.
Proof.
  intros Hd. unfold Clean. case_decide; [by split|]. rewrite Hd.
  case_decide as Hb; [by split|].
  apply join_slash_relative.
  - apply Forall_rev, clean_steps_kept; [apply components_relative|constructor].
  - intros E. rewrite E in Hb. by apply Hb.
Qed.

(** X1. [normalizePath] is idempotent, its result does not end with a
    slash, and the paths it sends to the empty path, the root, are those
    made of slashes only. *)
Theorem normalizePath_normal p :
  normalizePath (normalizePath p) = normalizePath p /\
  hasSuffixSlash (normalizePath p) = false /\
  (normalizePath p = "" <-> onlySlashes p = true).
Proof.
  unfold normalizePath. split; [|split].
  - apply trimRightSlash_fixed, trimRightSlash_suffix.
  - apply trimRightSlash_suffix.
  - apply trimRightSlash_empty.
Qed.

(** The parent of a rooted path is rooted and its normal form is shorter
    than that of the path. *)
Lemma parentOf_rooted p :
  normalizePath p <> "" -> is_rooted p = true ->
  is_rooted (parentOf p) = true /\
  (String.length (normalizePath (parentOf p)) < String.length (normalizePath p))%nat.
Proof.
  intros Hn Hr. unfold parentOf, Dir, normalizePath in *.
  destruct (trimRightSlash_rooted p Hr) as [E|Hr']; [congruence|].
  pose proof (dir_part_rooted _ Hr') as Hd.
  split; [by apply Clean_rooted|].
  pose proof (trimRightSlash_length (Clean (dir_part (trimRightSlash p)))).
  pose proof (Clean_length _ Hd).
  pose proof (dir_part_shorter _ Hn (trimRightSlash_suffix p)). lia.
Qed.

(** The parent of a relative path is a relative path, and not empty. *)
Lemma parentOf_relative p :
  p <> "" -> is_rooted p = false ->
  normalizePath p <> "" /\ parentOf p <> "" /\ is_rooted (parentOf p) = false.
Proof.
  intros Hp Hr. unfold parentOf, Dir, normalizePath.
  destruct (trimRightSlash_relative p Hp Hr) as [Hn Hr'].
  split; [exact Hn|]. apply Clean_relative, dir_part_relative, Hr'.
Qed.

End Paths.

(** ** Resolution: termination, divergence and what it leaves alone *)

Section ResolutionFacts.

Context {R : Type} {DS : DriveService R} {TL : TimeLib}.

Implicit Types (st : fileSystem R) (p key : string) (n : nat).

Lemma bind_returns {A B} (m : M R A) (k : A -> M R B) st :
  m st <> OutOfFuel -> (forall a st1, k a st1 <> OutOfFuel) -> bind m k st <> OutOfFuel.
Proof.
  unfold bind. intros Hm Hk. destruct (m st) as [a st1|msg st1|]; [apply Hk|discriminate|congruence].
Qed.

Lemma getFile_over_returns g0 p b st :
  g0 p b st <> OutOfFuel -> getFile_over g0 p b st <> OutOfFuel.
Proof.
  intros Hg. destruct (getFile_cases g0 p b st) as [(v & -> & _)|Hm]; [discriminate|].
  rewrite (getFile_miss _ _ _ _ Hm). apply bind_returns; [exact Hg|].
  intros [a [e|]] st1; discriminate.
Qed.

Lemma getFileID_over_returns g p b st :
  g p b st <> OutOfFuel -> getFileID_over g p b st <> OutOfFuel.
Proof.
  intros Hg. unfold getFileID_over. apply bind_returns; [exact Hg|].
  intros [[a|] [e|]] st1; simpl; try discriminate.
  cbv [bind deref ret panic]. destruct (file a); discriminate.
Qed.

(** The resolver of a rooted path returns or panics once it is allowed a
    depth beyond the length of the path. *)
Lemma getFile0_returns n : forall p b st,
  normalizePath p = "" \/ GoLib.is_rooted p = true ->
  (String.length (normalizePath p) < n)%nat ->
  getFile0 n p b st <> OutOfFuel.
Proof.
  induction n as [|n IH]; intros p b st Hp Hlen; [lia|].
  rewrite getFile0_S. unfold getFile0_over.
  destruct (decide (normalizePath p = "")) as [_|Hn].
  - apply bind_returns; [|intros [e|f] st1; discriminate].
    unfold Files_Get, remote. destruct (files_get _ _). discriminate.
  - destruct Hp as [Hp|Hp]; [congruence|].
    destruct (parentOf_rooted p Hn Hp) as [Hr Hl].
    apply bind_returns.
    + apply getFileID_over_returns, getFile_over_returns, IH; [by right|].
      unfold parentOf in Hl. lia.
    + intros [id [e|]] st1; simpl; [discriminate|].
      apply bind_returns; [|intros [e|fs] st2; discriminate].
      unfold Files_List, remote. destruct (files_list _ _ _). discriminate.
Qed.

(** X2. In a reachable state the lookup of a path that starts with a slash
    returns, and does so within a depth of recursion of the length of the
    path plus one. *)
Theorem absolute_path_lookup_returns p b st :
  reachable st ->
  GoLib.is_rooted p = true ->
  exists r st', getFile (S (String.length p)) p b st = Ok r st'.
Proof.
  intros Hreach Hp.
  pose proof (reachable_cache_ok _ Hreach) as Hok.
  assert (getFile (S (String.length p)) p b st <> OutOfFuel) as Hret.
  { apply getFile_over_returns, getFile0_returns; [by right|].
    pose proof (trimRightSlash_length p). unfold normalizePath. lia. }
  destruct (getFile (S (String.length p)) p b st) as [r st'|msg st'|] eqn:E.
  - eauto.
  - by destruct (sound_Panic _ _ _ _ _ (getFile_sound st _ p b) Hok E).
  - congruence.
Qed.

Lemma relative_ancestors p :
  p <> "" -> GoLib.is_rooted p = false ->
  forall i, Nat.iter i parentOf p <> "" /\ GoLib.is_rooted (Nat.iter i parentOf p) = false.
Proof.
  intros Hp Hr. induction i as [|i [IH1 IH2]]; [by split|]. simpl.
  by destruct (parentOf_relative _ IH1 IH2) as (_ & ? & ?).
Qed.

(** X3. The lookup of a path that is not empty and does not start with a
    slash never returns when no relative path is in the cache, as in a
    fresh file system: [path.Dir] leads to [.], whose parent is [.] again. *)
Theorem relative_path_lookup_diverges p st :
  p <> "" ->
  GoLib.is_rooted p = false ->
  (forall q, GoLib.is_rooted q = false -> misses st (cacheKeyFile +:+ q)) ->
  forall n b, getFile n p b st = OutOfFuel.
Proof.
  intros Hp Hr Hmiss n b. apply descent_forever. intros i.
  destruct (relative_ancestors p Hp Hr i) as [Hi Hri].
  split; [by apply Hmiss|]. by destruct (parentOf_relative _ Hi Hri).
Qed.


End ResolutionFacts.

(** ** [Mkdir] and [RemoveAll] *)

Section MutationFacts.

Context {R : Type} {DS : DriveService R} {TL : TimeLib}.

Implicit Types (st : fileSystem R) (p key : string) (n : nat).

(** X5. [Mkdir] on a path whose lookup returns no error answers [ErrExist]
    whatever the identifier found, and has made no mutating call. *)
Theorem Mkdir_on_existing n name perm st id st1 :
  getFileID n (normalizePath name) false st = Ok (id, None) st1 ->
  Mkdir n name perm st = Ok (Some ErrExist) st1 /\
  List.filter is_mutation (newCalls st st1) = [].
Proof.
  intros Hid. split.
  - unfold Mkdir. by rewrite (bind_run _ _ _ _ _ Hid).
  - apply queriesOnly_no_mutation. by eapply getFileID_queries.
Qed.

(** X6. A [Mkdir] that returns no error found no object at the path
    ([ErrNotExist]), resolved the parent path as a folder, and made exactly
    one mutating call: the creation, under the identifier of the parent, of
    a folder named by the base name of the path. *)
Theorem Mkdir_creates_one_folder n name perm st st' :
  Mkdir n name perm st = Ok None st' ->
  exists st1 parentID st2,
    getFileID n (normalizePath name) false st = Ok ("", Some ErrNotExist) st1 /\
    getFileID n (GoLib.Dir (normalizePath name)) true st1 = Ok (parentID, None) st2 /\
    parentID <> "" /\
    List.filter is_mutation (newCalls st st') =
      [CCreate (mkFile "" (GoLib.Base (normalizePath name)) mimeTypeFolder false
                  [parentID] 0 "" "") None].
Proof.
  unfold Mkdir. intros E.
  apply bind_Ok in E as ([id e] & st1 & Hid & E). simpl in E.
  destruct e as [e|]; [|discriminate].
  destruct (decide (e = ErrNotExist)) as [->|_]; [|discriminate].
  apply bind_Ok in E as ([pid e'] & st2 & Hpid & E). simpl in E.
  destruct e' as [e'|]; [discriminate|].
  destruct (decide (pid = "")) as [_|Hne]; [discriminate|].
  apply bind_Ok in E as (c & st3 & Hc & E).
  unfold Files_Create, remote in Hc.
  destruct (files_create _ _ (client st2)) as [x r'].
  injection Hc as <- <-. destruct x as [e''|x]; [discriminate|].
  injection E as <-.
  assert (id = "") as ->.
  { apply getFileID_Ok in Hid as ([a e0] & _ & Hr). simpl in Hr.
    destruct e0; [by injection Hr|]. by destruct Hr as (? & ? & _ & _ & [=]). }
  exists st1, pid, st2. split; [exact Hid|]. split; [exact Hpid|]. split; [exact Hne|].
  pose proof (getFileID_queries _ _ _ _ _ _ Hid) as Q1.
  pose proof (getFileID_queries _ _ _ _ _ _ Hpid) as Q2.
  rewrite (mutations_app st st1) by
    (try exact Q1; destruct Q2 as (l2 & Hl2 & _); eexists; simpl; rewrite Hl2, <- app_assoc; reflexivity).
  rewrite (mutations_app st1 st2) by (try exact Q2; eexists; reflexivity).
  erewrite newCalls_app; [|simpl; reflexivity]. reflexivity.
Qed.

(** X7. A [RemoveAll] that returns no error made exactly one mutating
    call: the deletion of the object the path resolved to. *)
Theorem RemoveAll_deletes_resolved n name st st' :
  RemoveAll n name st = Ok None st' ->
  exists id st1,
    getFileID n (normalizePath name) false st = Ok (id, None) st1 /\
    List.filter is_mutation (newCalls st st') = [CDelete id].
Proof.
  intros E. apply RemoveAll_success in E as (id & st1 & r' & Hid & Hcalls & _).
  exists id, st1. split; [exact Hid|].
  rewrite (mutations_app st st1) by (try (by eapply getFileID_queries); eauto).
  by rewrite (newCalls_app _ _ _ Hcalls).
Qed.

(** X8. [RemoveAll] of a path whose lookup fails returns the error of the
    lookup; it deletes nothing in the store and invalidates nothing. *)
Theorem RemoveAll_of_missing n name st id e st1 :
  getFileID n (normalizePath name) false st = Ok (id, Some e) st1 ->
  RemoveAll n name st = Ok (Some e) st1 /\
  List.filter is_mutation (newCalls st st1) = [].
Proof.
  intros Hid. split.
  - unfold RemoveAll. by rewrite (bind_run _ _ _ _ _ Hid).
  - apply queriesOnly_no_mutation. by eapply getFileID_queries.
Qed.


(** X21. Creating under a parent that does not resolve fails before any
    mutation: when nothing is found at the path and the lookup of the
    parent path fails, [Mkdir] and the [Close] of a write handle both
    return the error of that lookup and have made no mutating call. *)
Theorem create_under_unresolved_parent n name perm f st st1 id e st2 :
  w_name f = normalizePath name ->
  getFileID n (normalizePath name) false st = Ok ("", Some ErrNotExist) st1 ->
  getFileID n (GoLib.Dir (normalizePath name)) true st1 = Ok (id, Some e) st2 ->
  Mkdir n name perm st = Ok (Some e) st2 /\
  WritableClose n f st = Ok (Some e) st2 /\
  List.filter is_mutation (newCalls st st2) = [].
Proof.
  intros Hn H1 H2. split; [|split].
  - unfold Mkdir. rewrite (bind_run _ _ _ _ _ H1). simpl.
    destruct (decide (ErrNotExist = ErrNotExist)) as [_|N]; [|congruence].
    by rewrite (bind_run _ _ _ _ _ H2).
  - unfold WritableClose. rewrite Hn, (bind_run _ _ _ _ _ H1). simpl.
    destruct (decide (ErrNotExist = ErrNotExist)) as [_|N]; [|congruence].
    by rewrite (bind_run _ _ _ _ _ H2).
  - pose proof (getFileID_queries _ _ _ _ _ _ H1) as Q1.
    pose proof (getFileID_queries _ _ _ _ _ _ H2) as (l2 & Hl2 & Q2).
    rewrite (mutations_app st st1 st2) by (try exact Q1; eauto).
    rewrite (newCalls_app _ _ _ Hl2). by apply queries_filter.
Qed.

(** X22. A successful [RemoveAll] invalidates the lookups of the path and
    of its parent path and nothing else: the lookup of any other path that
    was cached, that of a child of a removed folder for one, is still
    answered from the cache, without any remote call, until it expires. *)
Theorem RemoveAll_keeps_other_lookups n name st st' q :
  RemoveAll n name st = Ok None st' ->
  q <> normalizePath name ->
  q <> GoLib.Dir (normalizePath name) ->
  exists r1 st1,
    getFileID n (normalizePath name) false st = Ok r1 st1 /\
    cache st' !! (cacheKeyFile +:+ q) = cache st1 !! (cacheKeyFile +:+ q) /\
    forall v e m b,
      cache st1 !! (cacheKeyFile +:+ q) = Some (v, e) -> now st1 <= e ->
      getFile m q b st' = Ok (fp v, err v) st'.
Proof.
  intros E H1 H2.
  apply RemoveAll_success in E as (id & st1 & r' & Hid & _ & Hc & _ & Hnow).
  assert (cache st' !! (cacheKeyFile +:+ q) = cache st1 !! (cacheKeyFile +:+ q)) as Hq.
  { rewrite Hc. rewrite !lookup_delete_ne; [reflexivity| |];
      intros K; apply key_inj in K; congruence. }
  exists (id, None), st1. split; [exact Hid|]. split; [exact Hq|].
  intros v e m b Hv He. unfold getFile. apply getFile_hit with e; [by rewrite Hq|lia].
Qed.

End MutationFacts.

(** ** Handles *)

(** Running the monad on a state, as far as it goes. *)
Ltac run_monad := cbv [observe bind ret deref panic sleep remote]; simpl.

Section HandleFacts.

Context {R : Type} {DS : DriveService R} {TL : TimeLib}.

Implicit Types (st : fileSystem R) (p key : string) (n : nat).

(** X10. [OpenFile] returns a handle for two values of the flag only:
    [O_RDONLY], with the file the normalized path resolves to and no body
    opened yet, and [O_RDWR|O_CREATE|O_TRUNC], with an empty buffer and
    without any lookup, remote call or change of the cache. *)
Theorem OpenFile_returns_two_kinds_of_handle n name flag perm st h e st' :
  OpenFile n name flag perm st = Ok (Some h, e) st' ->
  e = None /\
  ((flag = GoLib.O_RDONLY /\
    exists a, getFile n (normalizePath name) false st = Ok (Some a, None) st' /\
      h = ReadonlyFile (mkReadonly (file a) None 0 0 None (normalizePath name) None)) \/
   (flag = 578 /\ st' = st /\
    h = WritableFile (mkWritable [] 0 (normalizePath name) flag perm))).
Proof.
  unfold OpenFile. intros E.
  destruct (decide (Z.land flag GoLib.O_RDWR = 0)) as [_|_].
  - destruct (decide (flag = GoLib.O_RDONLY)) as [->|_]; [|discriminate].
    apply bind_Ok in E as ([a e0] & st1 & Hg & E). simpl in E.
    destruct e0 as [e0|]; [discriminate|].
    destruct a as [a|]; [|discriminate]. injection E as <- <- <-.
    split; [reflexivity|]. left. split; [reflexivity|]. eauto.
  - destruct (decide (flag = _)) as [->|_]; [|discriminate].
    injection E as <- <- <-. split; [reflexivity|]. right. by repeat split.
Qed.

Lemma int64_small z : - 2 ^ 63 <= z < 2 ^ 63 -> GoLib.int64 z = z.
Proof. intros Hz. unfold GoLib.int64. rewrite Z.mod_small; lia. Qed.

Lemma int64_add a b : GoLib.int64 (GoLib.int64 a + GoLib.int64 b) = GoLib.int64 (a + b).
Proof.
  assert (forall z, exists k, GoLib.int64 z = z + k * 2 ^ 64) as Hk.
  { intros z. exists (- ((z + 2 ^ 63) / 2 ^ 64)). unfold GoLib.int64.
    rewrite Z.mod_eq by lia. lia. }
  destruct (Hk a) as [ka ->]. destruct (Hk b) as [kb ->].
  unfold GoLib.int64. f_equal.
  replace (a + ka * 2 ^ 64 + (b + kb * 2 ^ 64) + 2 ^ 63)
    with (a + b + 2 ^ 63 + (ka + kb) * 2 ^ 64) by lia.
  apply Z_mod_plus_full.
Qed.

Lemma writeAll_size (ws : list bytes) : forall (f : openWritableFile) st,
  w_size f = GoLib.int64 (Z.of_nat (length (w_buffer f))) ->
  exists f', writeAll f ws st = Ok f' st /\
    w_buffer f' = w_buffer f ++ concat ws /\
    w_size f' = GoLib.int64 (Z.of_nat (length (w_buffer f'))).
Proof.
  induction ws as [|w ws IH]; intros f st Hs; simpl.
  - exists f. split; [reflexivity|]. by rewrite app_nil_r.
  - unfold bind at 1. simpl.
    destruct (IH (mkWritable (w_buffer f ++ w)
                    (GoLib.int64 (w_size f + GoLib.int64 (Z.of_nat (length w))))
                    (w_name f) (w_flag f) (w_perm f)) st) as (f' & H' & Hb & Hs').
    { simpl. rewrite Hs, int64_add, length_app. f_equal. lia. }
    exists f'. split; [exact H'|]. split; [|exact Hs'].
    rewrite Hb. simpl. by rewrite app_assoc.
Qed.

(** X11. The size a write handle reports is the number of bytes written to
    it so far, as an [int64]: after the slices [ws] are written to a handle
    just opened, [Stat] answers the length of their concatenation, which is
    the length of the buffer [Close] will send. *)
Theorem Write_size_is_buffer_length name flag perm (ws : list bytes) st :
  exists f,
    writeAll (mkWritable [] 0 name flag perm) ws st = Ok f st /\
    w_buffer f = concat ws /\
    w_size f = GoLib.int64 (Z.of_nat (length (concat ws))) /\
    WritableStat f st =
      Ok (Some (mkFileInfo "" false GoLib.zeroTime
                  (GoLib.int64 (Z.of_nat (length (concat ws))))), None) st /\
    (Z.of_nat (length (concat ws)) < 2 ^ 63 ->
       w_size f = Z.of_nat (length (concat ws))).
Proof.
  destruct (writeAll_size ws (mkWritable [] 0 name flag perm) st eq_refl)
    as (f & Hall & Hb & Hs).
  simpl in Hb. rewrite Hb in Hs.
  exists f. split; [exact Hall|]. split; [exact Hb|]. split; [exact Hs|].
  split; [unfold WritableStat; by rewrite Hs|].
  intros Hlt. rewrite Hs. apply int64_small. lia.
Qed.

(** X12. [Seek] to the start does not move the stream: whatever the
    offset, a read made after it returns the same bytes or error, and
    leaves the file system in the same state, as the same read made without
    the seek. *)
Theorem Seek_start_then_Read f offset n st :
  observe ((let* s := Seek f offset 0 in Read (fst s) n) st) = observe (Read f n st).
Proof.
  unfold Seek, Read, initContentReader, Files_Download.
  destruct (decide (0 = 0)) as [_|N]; [|congruence]. run_monad.
  destruct (r_contentReader f) as [tr|] eqn:Hr; run_monad; rewrite ?Hr; run_monad.
  - destruct (r_body f) as [body|]; run_monad; [|reflexivity].
    destruct (timeoutReader_Read tr n body) as [[[bs [e|]] body'] elapsed];
      run_monad; reflexivity.
  - destruct (r_file f) as [x|]; run_monad; [|reflexivity].
    destruct (files_download (Id x) stallTimeout (client st)) as [[e|body] r'];
      run_monad; [reflexivity|].
    destruct (timeoutReader_Read _ n body) as [[[bs [e|]] body'] elapsed];
      run_monad; reflexivity.
Qed.

(** X13. [Close] drops the stream of a read handle: the next read on the
    handle downloads the file again and returns the same bytes or error,
    and leaves the file system in the same state, as a read on a handle
    just opened on the file. *)
Theorem Close_then_Read_reopens f n st :
  observe ((let* c := ReadonlyClose f in Read (fst c) n) st) = observe (Read (reopened f) n st).
Proof.
  unfold ReadonlyClose, reopened, Read, initContentReader, Files_Download. run_monad.
  destruct (r_file f) as [x|]; run_monad; [|reflexivity].
  destruct (files_download (Id x) stallTimeout (client st)) as [[e|body] r'];
    run_monad; [reflexivity|].
  destruct (timeoutReader_Read _ n body) as [[[bs [e|]] body'] elapsed];
    run_monad; reflexivity.
Qed.

(** X14. A read makes a remote call only to open the stream: once a read
    has returned bytes, the handle holds a reader and a body, and a later
    read on it returns or panics without any remote call. *)
Theorem Read_opens_the_stream_once f n st g bs st' :
  Read f n st = Ok (g, (bs, None)) st' ->
  r_contentReader g <> None /\ r_body g <> None /\
  forall m, exists out s2,
    observe (Read g m st') = Ok out s2 /\ calls s2 = calls st' /\ client s2 = client st'.
Proof.
  unfold Read. intros E.
  apply bind_Ok in E as ([f1 e1] & st1 & Hinit & E). simpl in E.
  destruct e1 as [e1|]; [discriminate|].
  destruct (r_contentReader f1) as [tr|] eqn:Hr; [|discriminate].
  destruct (r_body f1) as [body|] eqn:Hb; [|discriminate].
  revert E. run_monad.
  destruct (timeoutReader_Read tr n body) as [[[bs0 [e|]] body'] elapsed];
    run_monad; [discriminate|].
  intros [= <- <- <-]. simpl.
  split; [discriminate|]. split; [discriminate|].
  intros m. unfold initContentReader. run_monad.
  destruct (timeoutReader_Read tr m body') as [[[bs1 [e|]] body''] elapsed'];
    run_monad; eexists _, _; by repeat split.
Qed.

(** X15. [Stat] panics, and returns no error, on a file whose modification
    time, or whose creation time when it has no modification time, is not
    an RFC 3339 instant. *)
Theorem Stat_panics_on_bad_timestamp n name st a x st1 :
  getFile n name false st = Ok (Some a, None) st1 ->
  file a = Some x ->
  snd (getModTime x) <> None ->
  Stat n name st = Panic "getModTime" st1.
Proof.
  intros Hg Hx Hbad. unfold Stat. rewrite (bind_run _ _ _ _ _ Hg). simpl.
  unfold newFileInfo. rewrite Hx. run_monad.
  destruct (getModTime x) as [t [e|]]; [reflexivity|]. by destruct Hbad.
Qed.



Lemma Readdir_miss_run f count st x fs r' :
  r_file f = Some x ->
  misses st (cacheKeyDir +:+ Id x) ->
  files_list (listQuery (Id x)) listFields (client st) = (inr fs, r') ->
  Forall (fun c => snd (getModTime c) = None) (visible fs) ->
  Readdir f count st =
    Ok (Some (List.map infoOf (visible fs)), None)
       (mkFS r' (calls st ++ [CList (listQuery (Id x)) listFields])
          (warm (r_name f) (now st)
             (<[cacheKeyDir +:+ Id x :=
                  (mkLookup (Some (mkFileAndPath (Some x) (Id x) fs)) None,
                   now st + 5 * GoLib.Second)]> (cache st)) (visible fs))
          (now st)).
Proof.
  intros Hx Hm Hl Hparse.
  unfold Readdir. rewrite Hx. unfold bind at 1. simpl.
  unfold bind at 1. rewrite Hm.
  unfold bind at 1, Files_List, remote. rewrite Hl.
  unfold bind at 1. simpl. unfold bind at 1. simpl. unfold bind at 1.
  rewrite readdirRange_run by exact Hparse. reflexivity.
Qed.


(** X18. For five seconds after a [Readdir] has listed a folder, another
    [Readdir] on the handle, whatever its count, is served from the cached
    listing: it returns the same list and makes no remote call, provided no
    child path is spelled like the identifier of the folder. *)
Theorem Readdir_serves_cached_listing f count count' st x fs r' d :
  r_file f = Some x ->
  misses st (cacheKeyDir +:+ Id x) ->
  files_list (listQuery (Id x)) listFields (client st) = (inr fs, r') ->
  Forall (fun c => snd (getModTime c) = None) (visible fs) ->
  (forall c, In c (visible fs) -> Id x <> r_name f +:+ "/" +:+ Name c) ->
  0 <= d <= 5 * GoLib.Second ->
  exists st' st2,
    Readdir f count st = Ok (Some (List.map infoOf (visible fs)), None) st' /\
    Readdir f count' (tick d st') = Ok (Some (List.map infoOf (visible fs)), None) st2 /\
    calls st2 = calls st' /\ client st2 = client st'.
Proof.
  intros Hx Hm Hl Hparse Hid Hd. eexists _, _.
  split; [by apply Readdir_miss_run|].
  set (listing := mkLookup (Some (mkFileAndPath (Some x) (Id x) fs)) None).
  set (listed := <[cacheKeyDir +:+ Id x := (listing, now st + 5 * GoLib.Second)]> (cache st)).
  assert (warm (r_name f) (now st) listed (visible fs) !! (cacheKeyDir +:+ Id x) =
          Some (listing, now st + 5 * GoLib.Second)) as Hlook.
  { rewrite warm_elsewhere; [apply lookup_insert_eq|].
    intros c Hc K. unfold childKey, cacheKeyDir, cacheKeyFile in K.
    apply String.app_inj in K. by destruct (Hid c Hc). }
  unfold Readdir, tick. rewrite Hx. unfold bind at 1. simpl.
  unfold bind at 1, cache_Get. simpl. rewrite Hlook.
  rewrite bool_decide_eq_true_2 by lia.
  unfold bind at 1. simpl. unfold bind at 1.
  rewrite readdirRange_run by exact Hparse. simpl. by repeat split.
Qed.

Lemma readdirRange_calls name (l : list File) : forall infos st out st',
  readdirRange name l infos st = Ok out st' -> calls st' = calls st.
Proof.
  induction l as [|y l IH]; intros infos st out st' E; simpl in E.
  - by injection E as <- <-.
  - destruct (ignoreFile y); [by eapply IH|].
    apply bind_Ok in E as (fi & st1 & Hfi & E).
    apply bind_Ok in E as ([] & st2 & Hset & E).
    apply IH in E. rewrite E. injection Hset as <-. simpl.
    unfold newFileInfo in Hfi. revert Hfi. run_monad.
    destruct (getModTime y) as [t [e|]]; run_monad; [discriminate|]. by intros [= <- <-].
Qed.

(** X19. A listing that fails is not cached: [Readdir] returns no list and
    the error of the store, and leaves the cache as it was, so that the
    next [Readdir] on the handle, if it returns, has asked the store
    again. *)
Theorem Readdir_failure_not_cached f count st x e r' :
  r_file f = Some x ->
  misses st (cacheKeyDir +:+ Id x) ->
  files_list (listQuery (Id x)) listFields (client st) = (inl e, r') ->
  exists st',
    Readdir f count st = Ok (None, Some e) st' /\
    cache st' = cache st /\
    forall count' out st2, Readdir f count' st' = Ok out st2 ->
      calls st2 = calls st' ++ [CList (listQuery (Id x)) listFields].
Proof.
  intros Hx Hm Hl.
  exists (mkFS r' (calls st ++ [CList (listQuery (Id x)) listFields]) (cache st) (now st)).
  split; [|split].
  - unfold Readdir. rewrite Hx. unfold bind at 1. simpl.
    unfold bind at 1. rewrite Hm.
    unfold bind at 1, Files_List, remote. rewrite Hl. reflexivity.
  - reflexivity.
  - intros count' out st2 E. unfold Readdir in E. rewrite Hx in E.
    unfold bind at 1 in E. simpl in E. unfold bind at 1 in E.
    assert (cache_Get (cacheKeyDir +:+ Id x)
              (mkFS r' (calls st ++ [CList (listQuery (Id x)) listFields]) (cache st) (now st)) =
            Ok None (mkFS r' (calls st ++ [CList (listQuery (Id x)) listFields]) (cache st) (now st)))
      as Hm'.
    { unfold misses, cache_Get in *. simpl.
      destruct (cache st !! (cacheKeyDir +:+ Id x)) as [[v t]|]; [|reflexivity].
      destruct (bool_decide (now st <= t)); [discriminate|reflexivity]. }
    rewrite Hm' in E.
    apply bind_Ok in E as (l & st3 & Hl3 & E).
    unfold Files_List, remote in Hl3. simpl in Hl3.
    destruct (files_list _ _ r') as [l0 r''].
    injection Hl3 as <- <-. destruct l0 as [e'|fs']; [by injection E as <- <-|].
    apply bind_Ok in E as ([] & st4 & Hset & E). injection Hset as <-.
    apply bind_Ok in E as (a & st5 & Ha & E). simpl in Ha. injection Ha as <- <-.
    apply bind_Ok in E as (infos & st6 & Hrange & E). injection E as <- <-.
    apply readdirRange_calls in Hrange. by rewrite Hrange.
Qed.

(** X20. In every reachable state every entry of the cache is a lookup
    that succeeded and holds a file: neither [getFile] nor [Readdir], nor
    any sequence of calls, time steps and changes of the store, leaves a
    failure or a nil result in the cache. *)
Theorem cache_holds_only_successes st key v e :
  reachable st ->
  cache st !! key = Some (v, e) ->
  err v = None /\ exists a x, fp v = Some a /\ file a = Some x.
Proof. intros Hreach Hv. exact (reachable_cache_ok st Hreach key v e Hv). Qed.

End HandleFacts.

(** ** The further properties on the stores in memory *)

Module MoreScenarios.

Import MemDrive.

Lemma fresh_is_reachable : reachable fresh.
Proof. exists scenario, 100. apply rtc_refl. Qed.

Lemma fresh_misses key : misses fresh key.
Proof. reflexivity. Qed.

Lemma absolute_path_lookup_returns_witness :
  exists r st', getFile 12 "/docs/a.txt" false fresh = Ok r st'.
Proof.
  exact (absolute_path_lookup_returns "/docs/a.txt" false fresh fresh_is_reachable eq_refl).
Defined.

Lemma relative_path_lookup_diverges_witness :
  getFile 100 "docs/a.txt" false fresh = OutOfFuel.
Proof.
  assert ("docs/a.txt" <> "") as Hp by discriminate.
  exact (relative_path_lookup_diverges "docs/a.txt" fresh Hp eq_refl
           (fun q _ => fresh_misses (cacheKeyFile +:+ q)) 100%nat false).
Defined.


Lemma Mkdir_on_existing_witness :
  let st1 := stateOf (getFileID 5 "/docs" false fresh) in
  Mkdir 5 "/docs/" 493 fresh = Ok (Some ErrExist) st1 /\
  List.filter is_mutation (newCalls fresh st1) = [].
Proof.
  assert (getFileID 5 (normalizePath "/docs/") false fresh =
          Ok ("D", None) (stateOf (getFileID 5 "/docs" false fresh))) as Hid
    by (vm_compute; reflexivity).
  exact (Mkdir_on_existing 5 "/docs/" 493 fresh "D" _ Hid).
Defined.

Lemma Mkdir_creates_one_folder_witness :
  let st' := stateOf (Mkdir 5 "/docs/new" 493 fresh) in
  exists st1 parentID st2,
    getFileID 5 (normalizePath "/docs/new") false fresh = Ok ("", Some ErrNotExist) st1 /\
    getFileID 5 (GoLib.Dir (normalizePath "/docs/new")) true st1 = Ok (parentID, None) st2 /\
    parentID <> "" /\
    List.filter is_mutation (newCalls fresh st') =
      [CCreate (mkFile "" (GoLib.Base (normalizePath "/docs/new")) mimeTypeFolder false
                  [parentID] 0 "" "") None].
Proof.
  assert (Mkdir 5 "/docs/new" 493 fresh = Ok None (stateOf (Mkdir 5 "/docs/new" 493 fresh)))
    as Hrun by (vm_compute; reflexivity).
  exact (Mkdir_creates_one_folder 5 "/docs/new" 493 fresh _ Hrun).
Defined.

Lemma RemoveAll_deletes_resolved_witness :
  let st' := stateOf (RemoveAll 5 "/docs/a.txt" fresh) in
  exists id st1,
    getFileID 5 (normalizePath "/docs/a.txt") false fresh = Ok (id, None) st1 /\
    List.filter is_mutation (newCalls fresh st') = [CDelete id].
Proof.
  assert (RemoveAll 5 "/docs/a.txt" fresh = Ok None (stateOf (RemoveAll 5 "/docs/a.txt" fresh)))
    as Hrun by (vm_compute; reflexivity).
  exact (RemoveAll_deletes_resolved 5 "/docs/a.txt" fresh _ Hrun).
Defined.

Lemma RemoveAll_of_missing_witness :
  let st1 := stateOf (getFileID 5 "/docs/none" false fresh) in
  RemoveAll 5 "/docs/none" fresh = Ok (Some ErrNotExist) st1 /\
  List.filter is_mutation (newCalls fresh st1) = [].
Proof.
  assert (getFileID 5 (normalizePath "/docs/none") false fresh =
          Ok ("", Some ErrNotExist) (stateOf (getFileID 5 "/docs/none" false fresh))) as Hid
    by (vm_compute; reflexivity).
  exact (RemoveAll_of_missing 5 "/docs/none" fresh "" ErrNotExist _ Hid).
Defined.


Lemma create_under_unresolved_parent_witness :
  let f := mkWritable [] 0 "/none/new.txt" 578 0 in
  let st2 := stateOf (WritableClose 5 f fresh) in
  Mkdir 5 "/none/new.txt" 493 fresh = Ok (Some ErrNotExist) st2 /\
  WritableClose 5 f fresh = Ok (Some ErrNotExist) st2 /\
  List.filter is_mutation (newCalls fresh st2) = [].
Proof.
  assert (getFileID 5 (normalizePath "/none/new.txt") false fresh =
          Ok ("", Some ErrNotExist) (stateOf (getFileID 5 "/none/new.txt" false fresh))) as H1
    by (vm_compute; reflexivity).
  assert (getFileID 5 (GoLib.Dir (normalizePath "/none/new.txt")) true
            (stateOf (getFileID 5 "/none/new.txt" false fresh)) =
          Ok ("", Some ErrNotExist)
             (stateOf (WritableClose 5 (mkWritable [] 0 "/none/new.txt" 578 0) fresh))) as H2
    by (vm_compute; reflexivity).
  exact (create_under_unresolved_parent 5 "/none/new.txt" 493
           (mkWritable [] 0 "/none/new.txt" 578 0) fresh _ "" ErrNotExist _ eq_refl H1 H2).
Defined.

Lemma RemoveAll_keeps_other_lookups_witness :
  cached folderRemoved (cacheKeyFile +:+ "/docs") = None /\
  getFile 0 "/docs/a.txt" false folderRemoved =
    Ok (Some (mkFileAndPath (Some aTxt) "/docs/a.txt" []), None) folderRemoved.
Proof.
  split; [vm_compute; reflexivity|].
  assert (RemoveAll 5 "/docs" lookedUp = Ok None folderRemoved) as Hrun
    by (vm_compute; reflexivity).
  assert ("/docs/a.txt" <> normalizePath "/docs") as H1 by discriminate.
  assert ("/docs/a.txt" <> GoLib.Dir (normalizePath "/docs")) as H2 by discriminate.
  destruct (RemoveAll_keeps_other_lookups 5 "/docs" lookedUp folderRemoved "/docs/a.txt"
              Hrun H1 H2) as (r1 & st1 & Hid & _ & Hhit).
  assert (st1 = stateOf (getFileID 5 (normalizePath "/docs") false lookedUp)) as ->
    by (rewrite Hid; reflexivity).
  apply (Hhit (mkLookup (Some (mkFileAndPath (Some aTxt) "/docs/a.txt" [])) None)
           (100 + GoLib.Minute)).
  - vm_compute. reflexivity.
  - vm_compute. discriminate.
Defined.

Lemma OpenFile_returns_two_kinds_of_handle_witness :
  let st' := stateOf (OpenFile 5 "/docs/a.txt" 0 0 fresh) in
  @None error = None /\
  ((0 = GoLib.O_RDONLY /\
    exists a, getFile 5 (normalizePath "/docs/a.txt") false fresh = Ok (Some a, None) st' /\
      ReadonlyFile (handleOn aTxt "/docs/a.txt") =
      ReadonlyFile (mkReadonly (file a) None 0 0 None (normalizePath "/docs/a.txt") None)) \/
   (0 = 578 /\ st' = fresh /\
    ReadonlyFile (handleOn aTxt "/docs/a.txt") =
    WritableFile (mkWritable [] 0 (normalizePath "/docs/a.txt") 0 0))).
Proof.
  assert (OpenFile 5 "/docs/a.txt" 0 0 fresh =
          Ok (Some (ReadonlyFile (handleOn aTxt "/docs/a.txt")), None)
             (stateOf (OpenFile 5 "/docs/a.txt" 0 0 fresh))) as Hrun
    by (vm_compute; reflexivity).
  exact (OpenFile_returns_two_kinds_of_handle 5 "/docs/a.txt" 0 0 fresh _ _ _ Hrun).
Defined.

Lemma Read_opens_the_stream_once_witness :
  r_contentReader afterRead <> None /\ r_body afterRead <> None /\
  forall m, exists out s2,
    observe (Read afterRead m (stateOf readThree)) = Ok out s2 /\
    calls s2 = calls (stateOf readThree) /\ client s2 = client (stateOf readThree).
Proof.
  assert (Read (handleOn aTxt "/docs/a.txt") 3 openedFile =
          Ok (afterRead, (list_byte_of_string "012", None)) (stateOf readThree)) as Hrun
    by (vm_compute; reflexivity).
  exact (Read_opens_the_stream_once _ 3%nat _ _ _ _ Hrun).
Defined.

Lemma Stat_panics_on_bad_timestamp_witness :
  let st := NewFS misdated 100 in
  Stat 5 "/docs/bad.txt" st = Panic "getModTime" (stateOf (getFile 5 "/docs/bad.txt" false st)).
Proof.
  assert (getFile 5 "/docs/bad.txt" false (NewFS misdated 100) =
          Ok (Some (mkFileAndPath (Some badFile) "/docs/bad.txt" []), None)
             (stateOf (getFile 5 "/docs/bad.txt" false (NewFS misdated 100)))) as Hrun
    by (vm_compute; reflexivity).
  assert (snd (getModTime badFile) <> None) as Hbad by discriminate.
  exact (Stat_panics_on_bad_timestamp 5 "/docs/bad.txt" (NewFS misdated 100) _ badFile _
           Hrun eq_refl Hbad).
Defined.



Lemma Readdir_serves_cached_listing_witness :
  exists st' st2,
    Readdir (handleOn docs "/docs") 0 fresh =
      Ok (Some (List.map infoOf (visible [aTxt])), None) st' /\
    Readdir (handleOn docs "/docs") 1 (tick (3 * GoLib.Second) st') =
      Ok (Some (List.map infoOf (visible [aTxt])), None) st2 /\
    calls st2 = calls st' /\ client st2 = client st'.
Proof.
  assert (files_list (listQuery (Id docs)) listFields (client fresh) = (inr [aTxt], scenario))
    as Hl by reflexivity.
  assert (Forall (fun c => snd (getModTime c) = None) (visible [aTxt])) as Hparse
    by (repeat constructor).
  assert (forall c, In c (visible [aTxt]) -> Id docs <> "/docs" +:+ "/" +:+ Name c) as Hid
    by (intros c [<-|[]]; discriminate).
  assert (0 <= 3 * GoLib.Second <= 5 * GoLib.Second) as Hd by (vm_compute; split; discriminate).
  exact (Readdir_serves_cached_listing (handleOn docs "/docs") 0 1 fresh docs [aTxt] scenario
           (3 * GoLib.Second) eq_refl eq_refl Hl Hparse Hid Hd).
Defined.

Lemma Readdir_failure_not_cached_witness :
  let st := NewFS (down scenario) 100 in
  exists st',
    Readdir (handleOn docs "/docs") 0 st = Ok (None, Some unavailable) st' /\
    cache st' = cache st /\
    forall count' out st2, Readdir (handleOn docs "/docs") count' st' = Ok out st2 ->
      calls st2 = calls st' ++ [CList (listQuery (Id docs)) listFields].
Proof.
  assert (files_list (listQuery (Id docs)) listFields (client (NewFS (down scenario) 100)) =
          (inl unavailable, down scenario)) as Hl by reflexivity.
  exact (Readdir_failure_not_cached (handleOn docs "/docs") 0 (NewFS (down scenario) 100)
           docs unavailable (down scenario) eq_refl eq_refl Hl).
Defined.

Lemma cache_holds_only_successes_witness :
  cached lookedUp (cacheKeyFile +:+ "/docs/a.txt") =
    Some (mkLookup (Some (mkFileAndPath (Some aTxt) "/docs/a.txt" [])) None) /\
  @None error = None /\
  exists a x, Some (mkFileAndPath (Some aTxt) "/docs/a.txt" []) = Some a /\ file a = Some x.
Proof.
  split; [vm_compute; reflexivity|].
  assert (reachable lookedUp) as Hreach.
  { exists scenario, 100. eapply rtc_l; [|apply rtc_refl].
    apply (step_served 5 (ReqStat "/docs/a.txt")). vm_compute. reflexivity. }
  assert (cache lookedUp !! (cacheKeyFile +:+ "/docs/a.txt") =
          Some (mkLookup (Some (mkFileAndPath (Some aTxt) "/docs/a.txt" [])) None,
                100 + GoLib.Minute)) as Hv by (vm_compute; reflexivity).
  exact (cache_holds_only_successes lookedUp _ _ _ Hreach Hv).
Defined.

End MoreScenarios.
